(** * Spotify data-collection agent: token lifecycle, adaptive delay and
      the collection loop of [API_Agent_2.py], as a shallow embedding.

    The Python object [SpotifyAIDataAgent] becomes a record threaded through
    a state-and-exception monad.  A Python exception keeps every mutation
    made before it was raised, so a computation returns its outcome together
    with the state reached.  The HTTP client, the wall clock and the random
    generator are outside the program: they are oracles, indexed by the
    number of interactions made so far.

    Timestamps and delays are exact rationals: the doubling, the cap at 10,
    the comparisons and the factor 0.9 are read as arithmetic on numbers,
    without rounding; an int too large to convert to a float is the one
    failure of float arithmetic that is kept.  The agent also carries the
    trace of the effects it has performed (requests, sleeps, log lines),
    which the program itself never reads. *)

From Stdlib Require Import ZArith QArith Qabs Qminmax List String Bool Lia Lqa.
From Stdlib Require Import Ascii DecimalString.
Import ListNotations.

Set Warnings "-register-all".

(** ** JSON values, as [json.load] / [response.json()] build them *)

Inductive json : Type :=
| JNull                                   (* None *)
| JBool (b : bool)
| JNum (q : Q)                            (* int or float *)
| JStr (s : string)
| JArr (items : list json)
| JObj (fields : list (string * json)).   (* dict, first binding of a key wins *)

(** ** Python exceptions the agent can meet *)

Inductive exn : Type :=
| ConnectionError          (* requests.get / requests.post raised *)
| HTTPError                (* raise_for_status on a non-2xx answer *)
| JSONDecodeError          (* response.json() on a body that is not JSON *)
| KeyError (k : string)
| TypeError
| AttributeError
| ValueError
| OverflowError.           (* an int too large to convert to a float *)

Inductive result (A : Type) : Type :=
| Ok (a : A)
| Raise (e : exn).
Arguments Ok {A} a.
Arguments Raise {A} e.

(** Sequencing of computations that touch no state. *)
Definition and_then {A B : Type} (r : result A) (k : A -> result B) : result B :=
  match r with
  | Ok a => k a
  | Raise e => Raise e
  end.

Module Py.

Local Open Scope Q_scope.

(** [a < b] on rationals, as a boolean. *)
Definition Qlt_bool (a b : Q) : bool := negb (Qle_bool b a).

(** Truth value of an object: [bool(x)], [if x], [not x]. *)
Definition truthy (j : json) : bool :=
  match j with
  | JNull => false
  | JBool b => b
  | JNum q => negb (Qeq_bool q 0)
  | JStr s => negb (String.eqb s EmptyString)
  | JArr items => match items with [] => false | _ :: _ => true end
  | JObj fields => match fields with [] => false | _ :: _ => true end
  end.

Fixpoint lookup (k : string) (fields : list (string * json)) : option json :=
  match fields with
  | [] => None
  | (k', v) :: rest => if String.eqb k k' then Some v else lookup k rest
  end.

(** [d.get(k, default)]: only a dict has the method. *)
Definition get_default (d : json) (k : string) (default : json) : result json :=
  match d with
  | JObj fields =>
      match lookup k fields with Some v => Ok v | None => Ok default end
  | _ => Raise AttributeError
  end.

(** [d.get(k)] *)
Definition get (d : json) (k : string) : result json := get_default d k JNull.

(** [d[k]] with a string key. *)
Definition subscript (d : json) (k : string) : result json :=
  match d with
  | JObj fields =>
      match lookup k fields with Some v => Ok v | None => Raise (KeyError k) end
  | _ => Raise TypeError
  end.

(** [x[0]] for an [x] already known to be truthy. *)
Definition index0 (x : json) : result json :=
  match x with
  | JArr (first :: _) => Ok first
  | JStr (String c _) => Ok (JStr (String c EmptyString))
  | JObj _ => Raise (KeyError "0")
  | _ => Raise TypeError
  end.

(** [len(x)] *)
Definition len (x : json) : result nat :=
  match x with
  | JStr s => Ok (String.length s)
  | JArr items => Ok (List.length items)
  | JObj fields => Ok (List.length fields)
  | _ => Raise TypeError
  end.

(** The least integer whose magnitude does not convert to a float: halfway
    between the largest double, [2^1024 - 2^971], and [2^1024]. *)
Definition float_overflow : Z := 2 ^ 1024 - 2 ^ 970.

(** A number of the range in which an int converts to a float; a parsed float
    is always in it. *)
Definition in_float_range (q : Q) : bool :=
  Qlt_bool (Qabs q) (inject_Z float_overflow).

(** [t + x] for a float [t]: an int [x] is converted to a float first, which
    fails when it is too large. *)
Definition add_float (t : Q) (x : json) : result Q :=
  match x with
  | JNum q => if in_float_range q then Ok (t + q) else Raise OverflowError
  | JBool b => Ok (t + (if b then 1 else 0))
  | _ => Raise TypeError
  end.

(** [min(a, b)] and [max(a, b)]: the first argument unless the second is
    strictly smaller (larger). *)
Definition min (a b : Q) : Q := if Qlt_bool b a then b else a.
Definition max (a b : Q) : Q := if Qlt_bool a b then b else a.

End Py.

(** ** Configuration ([config.json], after [load_config]) *)

Record CollectionSettings : Type := mkSettings {
  min_delay_seconds : option Q
}.

Record Config : Type := mkConfig {
  client_id : option string;          (* config value or SPOTIFY_CLIENT_ID *)
  client_secret : option string;      (* config value or SPOTIFY_CLIENT_SECRET *)
  artists_to_search : list string;
  collection_settings : option CollectionSettings
}.

(** ** The outside world *)

Inductive Request : Type :=
| TokenRequest                                 (* POST accounts.spotify.com/api/token *)
| SearchRequest (q : string) (bearer : json)   (* GET /v1/search *)
| ArtistRequest (id : json) (bearer : json).   (* GET /v1/artists/{id} *)

Record Response : Type := mkResponse {
  status_ok : bool;             (* raise_for_status() passes *)
  json_body : option json       (* response.json(), None when it raises *)
}.

Record Jitter : Type := mkJitter {
  jitter_value : Q;
  jitter_range :
    (Qle_bool (8 # 10) jitter_value && Qle_bool jitter_value (12 # 10))%bool = true
}.

Record Oracle : Type := mkOracle {
  http : Request -> nat -> option Response;   (* None: the call raised *)
  clock : nat -> Q;                           (* datetime.now().timestamp() *)
  uniform : nat -> Jitter                     (* random.uniform(0.8, 1.2) *)
}.

Inductive LogLine : Type :=
| LogStarted
| LogAccessToken (tok : json)
| LogConfigKeys (c : Config)           (* the keys of the configuration *)
| LogArtistEmpty
| LogProcessing (name : string)
| LogProcessingEmpty (name : string)
| LogObtainedToken
| LogTokenFailed (e : exn)
| LogNoArtistFound (name : string)
| LogSearchError (name : string) (e : exn)
| LogDetailsError (id : json) (e : exn)
| LogIncreasingDelay (d : Q)
| LogSleeping (d : Q)
| LogCollected (name : string)
| LogQualityFailed (name : string)
| LogComplete.

Inductive Event : Type :=
| Http (r : Request)
| Sleep (seconds : Q)
| Log (l : LogLine).

(** ** The agent *)

Record Stats : Type := mkStats {
  total_requests : Z;
  successful_requests : Z;
  failed_requests : Z;
  quality_passed : Z
}.

Record Artist : Type := mkArtist {
  artist_id : json;
  artist_name : json;
  artist_genres : json;
  artist_spotify_url : json;
  artist_popularity : json;
  artist_followers : json
}.

Record Agent : Type := mkAgent {
  config : Config;
  token : json;                       (* JNull is None *)
  token_expiry : option Q;
  collected_artists : list Artist;
  stats : Stats;
  delay : Q;
  tick : nat;                         (* interactions with the oracle so far *)
  trace : list Event                  (* effects performed, oldest first *)
}.

(** ** State and exceptions *)

Definition M (A : Type) : Type := Agent -> result A * Agent.

Definition ret {A} (a : A) : M A := fun s => (Ok a, s).

Definition raise {A} (e : exn) : M A := fun s => (Raise e, s).

Definition bind {A B} (m : M A) (k : A -> M B) : M B :=
  fun s =>
    match m s with
    | (Ok a, s') => k a s'
    | (Raise e, s') => (Raise e, s')
    end.

(** [try: body except Exception as e: handler(e)] *)
Definition try_except {A} (body : M A) (handler : exn -> M A) : M A :=
  fun s =>
    match body s with
    | (Ok a, s') => (Ok a, s')
    | (Raise e, s') => handler e s'
    end.

Definition lift {A} (r : result A) : M A := fun s => (r, s).

Definition gets {A} (f : Agent -> A) : M A := fun s => (Ok (f s), s).

Definition modify (f : Agent -> Agent) : M unit := fun s => (Ok tt, f s).

Declare Scope agent_scope.
Delimit Scope agent_scope with agent.
Notation "x <- m ;; k" := (bind m (fun x => k))
  (at level 61, m at next level, right associativity) : agent_scope.
Notation "m ;; k" := (bind m (fun _ => k))
  (at level 61, right associativity) : agent_scope.
Local Open Scope agent_scope.

(** Field updates. *)

Definition set_token (v : json) (s : Agent) : Agent :=
  mkAgent (config s) v (token_expiry s) (collected_artists s) (stats s)
          (delay s) (tick s) (trace s).

Definition set_token_expiry (v : option Q) (s : Agent) : Agent :=
  mkAgent (config s) (token s) v (collected_artists s) (stats s)
          (delay s) (tick s) (trace s).

Definition set_collected_artists (v : list Artist) (s : Agent) : Agent :=
  mkAgent (config s) (token s) (token_expiry s) v (stats s)
          (delay s) (tick s) (trace s).

Definition set_stats (v : Stats) (s : Agent) : Agent :=
  mkAgent (config s) (token s) (token_expiry s) (collected_artists s) v
          (delay s) (tick s) (trace s).

Definition set_delay (v : Q) (s : Agent) : Agent :=
  mkAgent (config s) (token s) (token_expiry s) (collected_artists s) (stats s)
          v (tick s) (trace s).

Definition next_tick (s : Agent) : Agent :=
  mkAgent (config s) (token s) (token_expiry s) (collected_artists s) (stats s)
          (delay s) (S (tick s)) (trace s).

Definition emit (e : Event) (s : Agent) : Agent :=
  mkAgent (config s) (token s) (token_expiry s) (collected_artists s) (stats s)
          (delay s) (tick s) (trace s ++ [e]).

(** [self.stats[k] += 1] *)
Definition incr_total (st : Stats) : Stats :=
  mkStats (total_requests st + 1) (successful_requests st)
          (failed_requests st) (quality_passed st).
Definition incr_successful (st : Stats) : Stats :=
  mkStats (total_requests st) (successful_requests st + 1)
          (failed_requests st) (quality_passed st).
Definition incr_failed (st : Stats) : Stats :=
  mkStats (total_requests st) (successful_requests st)
          (failed_requests st + 1) (quality_passed st).
Definition incr_quality_passed (st : Stats) : Stats :=
  mkStats (total_requests st) (successful_requests st)
          (failed_requests st) (quality_passed st + 1).

Definition bump (f : Stats -> Stats) : M unit :=
  modify (fun s => set_stats (f (stats s)) s).

Definition log (l : LogLine) : M unit := modify (emit (Log l)).

(** [SpotifyAIDataAgent.__init__], after the configuration is loaded. *)

Definition configured_min_delay (c : Config) : Q :=
  match collection_settings c with
  | Some cs => match min_delay_seconds cs with Some d => d | None => 1%Q end
  | None => 1%Q
  end.

Definition present (x : option string) : bool :=
  match x with
  | Some s => negb (String.eqb s EmptyString)
  | None => false
  end.

Definition init (c : Config) : result Agent :=
  if (negb (present (client_id c)) || negb (present (client_secret c)))%bool
  then Raise ValueError
  else Ok (mkAgent c JNull None [] (mkStats 0 0 0 0) (configured_min_delay c) 0 []).

(** How one iteration of the loop of [run] ended. *)
Inductive Branch : Type :=
| NoArtist        (* search gave nothing: first [continue] *)
| NoDetails       (* details gave nothing: second [continue] *)
| Collected
| Rejected.

Section Agent.

Variable world : Oracle.

(** *** Primitive effects *)

(** [requests.post(...)] / [requests.get(...)] *)
Definition requests_send (r : Request) : M Response :=
  fun s =>
    let s' := emit (Http r) (next_tick s) in
    match http world r (tick s) with
    | Some response => (Ok response, s')
    | None => (Raise ConnectionError, s')
    end.

Definition raise_for_status (r : Response) : M unit :=
  if status_ok r then ret tt else raise HTTPError.

Definition response_json (r : Response) : M json :=
  match json_body r with
  | Some j => ret j
  | None => raise JSONDecodeError
  end.

(** [datetime.now().timestamp()] *)
Definition now_timestamp : M Q :=
  fun s => (Ok (clock world (tick s)), next_tick s).

(** [random.uniform(0.8, 1.2)] *)
Definition random_uniform : M Q :=
  fun s => (Ok (jitter_value (uniform world (tick s))), next_tick s).

(** [time.sleep(x)]: a negative length is a [ValueError].  (CPython refuses
    a length beyond about 9.2e9 seconds, in either direction, with an
    [OverflowError]; that bound is not represented here.) *)
Definition sleep (x : Q) : M unit :=
  if Py.Qlt_bool x 0 then raise ValueError else modify (emit (Sleep x)).

(** *** Token Manager *)

Definition get_access_token : M unit :=
  try_except
    (response <- requests_send TokenRequest ;;
     raise_for_status response ;;
     token_data <- response_json response ;;
     access_token <- lift (Py.subscript token_data "access_token") ;;
     modify (set_token access_token) ;;
     now <- now_timestamp ;;
     expires_in <- lift (Py.subscript token_data "expires_in") ;;
     expiry <- lift (Py.add_float now expires_in) ;;
     modify (set_token_expiry (Some expiry)) ;;
     log LogObtainedToken)
    (fun e => log (LogTokenFailed e) ;; raise e).

Definition is_none (j : json) : bool :=
  match j with JNull => true | _ => false end.

Definition ensure_token_valid : M unit :=
  tok <- gets token ;;
  if is_none tok then get_access_token
  else
    now <- now_timestamp ;;
    expiry <- gets token_expiry ;;
    match expiry with
    | None => raise TypeError               (* None - 60 *)
    | Some e =>
        if Py.Qlt_bool (e - 60) now then get_access_token else ret tt
    end.

(** *** Rate Controller *)

Definition adapt_delay : M unit :=
  d <- gets delay ;;
  modify (set_delay (Py.min (d * 2) 10)) ;;
  d' <- gets delay ;;
  log (LogIncreasingDelay d') ;;
  sleep d'.

(** [self.config["collection_settings"]["min_delay_seconds"]] *)
Definition config_min_delay (c : Config) : result Q :=
  match collection_settings c with
  | None => Raise (KeyError "collection_settings")
  | Some cs =>
      match min_delay_seconds cs with
      | None => Raise (KeyError "min_delay_seconds")
      | Some d => Ok d
      end
  end.

Definition respectful_delay : M unit :=
  jitter <- random_uniform ;;
  d <- gets delay ;;
  let actual_delay := (d * jitter)%Q in
  log (LogSleeping actual_delay) ;;
  sleep actual_delay ;;
  d <- gets delay ;;
  c <- gets config ;;
  if Py.Qlt_bool (configured_min_delay c) d then
    floor <- lift (config_min_delay c) ;;
    modify (set_delay (Py.max (d * (9 # 10)) floor))
  else ret tt.

(** *** Collection Orchestrator *)

Definition search_artist (artist_name : string) : M json :=
  ensure_token_valid ;;
  bearer <- gets token ;;
  try_except
    (response <- requests_send (SearchRequest artist_name bearer) ;;
     bump incr_total ;;
     raise_for_status response ;;
     bump incr_successful ;;
     data <- response_json response ;;
     artists <- lift (Py.get_default data "artists" (JObj [])) ;;
     items <- lift (Py.get_default artists "items" (JArr [])) ;;
     if negb (Py.truthy items) then
       log (LogNoArtistFound artist_name) ;;
       bump incr_failed ;;
       ret JNull
     else lift (Py.index0 items))
    (fun e =>
       log (LogSearchError artist_name e) ;;
       bump incr_failed ;;
       adapt_delay ;;
       ret JNull).

Definition get_artist_details (id : json) : M json :=
  ensure_token_valid ;;
  bearer <- gets token ;;
  try_except
    (response <- requests_send (ArtistRequest id bearer) ;;
     bump incr_total ;;
     raise_for_status response ;;
     bump incr_successful ;;
     response_json response)
    (fun e =>
       log (LogDetailsError id e) ;;
       bump incr_failed ;;
       adapt_delay ;;
       ret JNull).

(** [bool(d and d.get("name") and d.get("genres") and len(d.get("genres")) > 0)];
    it reads no field of the agent. *)
Definition assess_data_quality (artist_data : json) : result bool :=
  if negb (Py.truthy artist_data) then Ok false else
  match Py.get artist_data "name" with
  | Raise e => Raise e
  | Ok name =>
      if negb (Py.truthy name) then Ok false else
      match Py.get artist_data "genres" with
      | Raise e => Raise e
      | Ok genres =>
          if negb (Py.truthy genres) then Ok false else
          match Py.len genres with
          | Raise e => Raise e
          | Ok n => Ok (0 <? n)%nat
          end
      end
  end.

(** The dict literal appended to [collected_artists]; it reads no field of
    the agent. *)
Definition collected_record (id artist_details : json) : result Artist :=
  and_then (Py.get artist_details "name") (fun name =>
  and_then (Py.get artist_details "genres") (fun genres =>
  and_then (Py.get_default artist_details "external_urls" (JObj [])) (fun external_urls =>
  and_then (Py.get external_urls "spotify") (fun spotify_url =>
  and_then (Py.get artist_details "popularity") (fun popularity =>
  and_then (Py.get_default artist_details "followers" (JObj [])) (fun followers =>
  and_then (Py.get followers "total") (fun total =>
  Ok (mkArtist id name genres spotify_url popularity total)))))))).

(** The body of the [for] loop of [run] for one name.  The value returned
    names the way the iteration ended; both [continue] statements leave the
    body before [respectful_delay]. *)
Definition run_body (artist_name : string) : M Branch :=
  log (LogProcessing artist_name) ;;
  artist_basic <- search_artist artist_name ;;
  if negb (Py.truthy artist_basic) then
    log (LogProcessingEmpty artist_name) ;;
    ret NoArtist
  else
    id <- lift (Py.get artist_basic "id") ;;
    artist_details <- get_artist_details id ;;
    if negb (Py.truthy artist_details) then ret NoDetails
    else
      passed <- lift (assess_data_quality artist_details) ;;
      branch <- (if passed : bool then
                   record <- lift (collected_record id artist_details) ;;
                   modify (fun s =>
                     set_collected_artists (collected_artists s ++ [record]) s) ;;
                   bump incr_quality_passed ;;
                   log (LogCollected artist_name) ;;
                   ret Collected
                 else
                   log (LogQualityFailed artist_name) ;;
                   ret Rejected) ;;
      respectful_delay ;;
      ret branch.

Fixpoint run_loop (artist_names : list string) : M (list Branch) :=
  match artist_names with
  | [] => ret []
  | artist_name :: rest =>
      branch <- run_body artist_name ;;
      branches <- run_loop rest ;;
      ret (branch :: branches)
  end.

(** [run], up to the hand-over to the sinks ([save_data], [generate_report],
    [save_metadata]), which write files and touch no field of the agent. *)
Definition run : M (list Branch) :=
  log LogStarted ;;
  tok <- gets token ;;
  log (LogAccessToken tok) ;;
  artist_names <- gets (fun s => artists_to_search (config s)) ;;
  c <- gets config ;;
  log (LogConfigKeys c) ;;
  (match artist_names with [] => log LogArtistEmpty | _ :: _ => ret tt end) ;;
  branches <- run_loop artist_names ;;
  log LogComplete ;;
  ret branches.

End Agent.

(** ** Rate Controller seen from outside: sequences of calls *)

(** The agent after [n] calls of [adapt_delay] in a row, whatever each call
    returned. *)
Definition after_failures (n : nat) (s : Agent) : Agent :=
  Nat.iter n (fun s' => snd (adapt_delay s')) s.

Inductive RateCall : Type :=
| OnFailure          (* adapt_delay *)
| WaitAndDecay.      (* respectful_delay *)

Definition rate_call (world : Oracle) (c : RateCall) : M unit :=
  match c with
  | OnFailure => adapt_delay
  | WaitAndDecay => respectful_delay world
  end.

(** The agent after a sequence of Rate Controller calls, oldest first. *)
Definition after_calls (world : Oracle) (calls : list RateCall) (s : Agent) : Agent :=
  fold_left (fun s' c => snd (rate_call world c s')) calls s.

(** [floor_delay <= current_delay <= ceiling_delay], the ceiling being the
    constant 10 of [adapt_delay]. *)
Definition delay_in_range (s : Agent) : Prop :=
  (configured_min_delay (config s) <= delay s /\ delay s <= 10)%Q.

(** ** Traces *)

Definition is_sleeping_line (e : Event) : bool :=
  match e with Log (LogSleeping _) => true | _ => false end.

(** Calls of [respectful_delay] recorded in a trace: each call writes the
    line "Sleeping for ... seconds before next request." once, first thing,
    and nothing else writes it. *)
Definition respectful_delays (t : list Event) : nat :=
  List.length (filter is_sleeping_line t).

Definition is_http (e : Event) : bool :=
  match e with Http _ => true | _ => false end.

(** Network calls recorded in a trace. *)
Definition network_calls (t : list Event) : nat :=
  List.length (filter is_http t).

Definition calls_made (s : Agent) : nat := network_calls (trace s).

Definition paced (b : Branch) : bool :=
  match b with Collected | Rejected => true | NoArtist | NoDetails => false end.

Definition count_paced (bs : list Branch) : nat :=
  List.length (filter paced bs).

(** ** Statistics *)

Definition stats_partition (st : Stats) : Prop :=
  total_requests st = (successful_requests st + failed_requests st)%Z.

Definition stats_bracket (st : Stats) : Prop :=
  (successful_requests st <= total_requests st
   /\ total_requests st <= successful_requests st + failed_requests st)%Z.

Definition collected_matches_counter (s : Agent) : Prop :=
  Z.of_nat (List.length (collected_artists s)) = quality_passed (stats s).

(** ** Token validity *)

(** The test of [ensure_token_valid] at clock reading [now]: no token, or
    [now > token_expiry - 60]. *)
Definition stale (s : Agent) (now : Q) : Prop :=
  token s = JNull \/ exists e, token_expiry s = Some e /\ (e - 60 < now)%Q.

(** A token exists and [now] has not passed [token_expiry - 60]. *)
Definition still_valid (s : Agent) (now : Q) : Prop :=
  token s <> JNull /\ exists e, token_expiry s = Some e /\ (now <= e - 60)%Q.

(** ** Relating the agent before and after a computation *)

(** [f] reads the same before and after. *)
Definition unchanged {X : Type} (f : Agent -> X) : Agent -> Agent -> Prop :=
  fun s s' => f s' = f s.

(** [P] survives. *)
Definition keeps (P : Agent -> Prop) : Agent -> Agent -> Prop :=
  fun s s' => P s -> P s'.

(** Every run of [m], whatever it returns or raises, relates the agent it
    starts from to the agent it leaves. *)
Definition respects (R : Agent -> Agent -> Prop) {A : Type} (m : M A) : Prop :=
  forall s, R s (snd (m s)).

(** ** A run in which everything succeeds *)

(** The token endpoint answers 200 with a token and a numeric lifetime that
    converts to a float. *)
Definition token_granted (r : option Response) : Prop :=
  exists data tok lifetime,
    r = Some (mkResponse true (Some data))
    /\ Py.subscript data "access_token" = Ok tok
    /\ Py.subscript data "expires_in" = Ok (JNum lifetime)
    /\ Py.in_float_range lifetime = true.

(** The search answers 200 with a non-empty item list whose first item is a
    non-empty dict. *)
Definition search_hit (r : option Response) : Prop :=
  exists data artists item rest id,
    r = Some (mkResponse true (Some data))
    /\ Py.get_default data "artists" (JObj []) = Ok artists
    /\ Py.get_default artists "items" (JArr []) = Ok (JArr (item :: rest))
    /\ Py.truthy item = true
    /\ Py.get item "id" = Ok id.

(** The detail fetch answers 200 with a record that passes the quality gate
    and whose [external_urls] and [followers], when present, are dicts. *)
Definition record_passes (r : option Response) : Prop :=
  exists d,
    r = Some (mkResponse true (Some d))
    /\ assess_data_quality d = Ok true
    /\ forall id, exists a, collected_record id d = Ok a.

Definition all_succeed (world : Oracle) : Prop :=
  (forall n, token_granted (http world TokenRequest n))
  /\ (forall q bearer n, search_hit (http world (SearchRequest q bearer) n))
  /\ (forall id bearer n, record_passes (http world (ArtistRequest id bearer) n)).

(** What a token refresh that fails does to the iteration for [name] started
    from [s]: it fails either in the [ensure_token_valid] of [search_artist],
    or, the search having returned an artist, in the [ensure_token_valid] of
    [get_artist_details]. *)
Inductive refresh_fails (world : Oracle) (name : string) (s : Agent)
    (e : exn) (s2 : Agent) : Prop :=
| refresh_fails_in_search :
    ensure_token_valid world (emit (Log (LogProcessing name)) s) = (Raise e, s2) ->
    refresh_fails world name s e s2
| refresh_fails_in_details (artist_basic id : json) (s1 : Agent) :
    search_artist world name (emit (Log (LogProcessing name)) s) = (Ok artist_basic, s1) ->
    Py.truthy artist_basic = true ->
    Py.get artist_basic "id" = Ok id ->
    ensure_token_valid world s1 = (Raise e, s2) ->
    refresh_fails world name s e s2.

(** The agent when the loop of [run] starts, the list of names not being
    empty. *)
Definition at_loop_start (s : Agent) : Agent :=
  emit (Log (LogConfigKeys (config s)))
    (emit (Log (LogAccessToken (token s))) (emit (Log LogStarted) s)).

Definition delays_made (s : Agent) : nat := respectful_delays (trace s).

(** The agent after the three statements that keep [record]: the append,
    the counter and the log line. *)
Definition collect (record : Artist) (name : string) (s : Agent) : Agent :=
  emit (Log (LogCollected name))
    (set_stats (incr_quality_passed (stats s))
       (set_collected_artists (collected_artists s ++ [record]) s)).

(** The ways one iteration of the loop can reach the next one, from the
    search onwards. *)
Inductive iteration (world : Oracle) (name : string) (s : Agent)
    : Branch -> Agent -> Prop :=
| iteration_no_artist (artist_basic : json) (s1 : Agent) :
    search_artist world name (emit (Log (LogProcessing name)) s)
    = (Ok artist_basic, s1) ->
    Py.truthy artist_basic = false ->
    iteration world name s NoArtist (emit (Log (LogProcessingEmpty name)) s1)
| iteration_no_details (artist_basic id artist_details : json) (s1 s2 : Agent) :
    search_artist world name (emit (Log (LogProcessing name)) s)
    = (Ok artist_basic, s1) ->
    Py.truthy artist_basic = true ->
    Py.get artist_basic "id" = Ok id ->
    get_artist_details world id s1 = (Ok artist_details, s2) ->
    Py.truthy artist_details = false ->
    iteration world name s NoDetails s2
| iteration_rejected (artist_basic id artist_details : json) (s1 s2 s3 : Agent) :
    search_artist world name (emit (Log (LogProcessing name)) s)
    = (Ok artist_basic, s1) ->
    Py.truthy artist_basic = true ->
    Py.get artist_basic "id" = Ok id ->
    get_artist_details world id s1 = (Ok artist_details, s2) ->
    Py.truthy artist_details = true ->
    assess_data_quality artist_details = Ok false ->
    respectful_delay world (emit (Log (LogQualityFailed name)) s2) = (Ok tt, s3) ->
    iteration world name s Rejected s3
| iteration_collected (artist_basic id artist_details : json) (record : Artist)
    (s1 s2 s3 : Agent) :
    search_artist world name (emit (Log (LogProcessing name)) s)
    = (Ok artist_basic, s1) ->
    Py.truthy artist_basic = true ->
    Py.get artist_basic "id" = Ok id ->
    get_artist_details world id s1 = (Ok artist_details, s2) ->
    Py.truthy artist_details = true ->
    assess_data_quality artist_details = Ok true ->
    collected_record id artist_details = Ok record ->
    respectful_delay world (collect record name s2) = (Ok tt, s3) ->
    iteration world name s Collected s3.

(** The two things an admission changes. *)
Definition collection (s : Agent) : list Artist * Z :=
  (collected_artists s, quality_passed (stats s)).

(** The quality gate on the two fields it reads, [None] for a missing key. *)
Definition gate (name genres : option json) : result bool :=
  match name with
  | None => Ok false
  | Some n =>
      if negb (Py.truthy n) then Ok false else
      match genres with
      | None => Ok false
      | Some g =>
          if negb (Py.truthy g) then Ok false else
          match Py.len g with
          | Raise e => Raise e
          | Ok k => Ok (0 <? k)%nat
          end
      end
  end.

(** The token fields are consistent: no token yet, or an expiry next to it. *)
Definition token_usable (s : Agent) : Prop :=
  token s = JNull \/ exists e, token_expiry s = Some e.

(** The agent between two iterations of a run without failures: the delay
    sits at the configured floor, which is not negative. *)
Definition ready (s : Agent) : Prop :=
  token_usable s
  /\ delay s = configured_min_delay (config s)
  /\ (0 <= delay s)%Q.

(** Everything but the token fields, the tick and the trace. *)
Definition books (s : Agent) : Config * Q * list Artist * Stats :=
  (config s, delay s, collected_artists s, stats s).

(** Two successful requests and one record kept. *)
Definition one_collected (st : Stats) : Stats :=
  mkStats (total_requests st + 2) (successful_requests st + 2)
          (failed_requests st) (quality_passed st + 1).

(** The five ways a request moves the counters: not at all (the refresh
    before it raised), failed only (the call raised), total and failed
    (status not 2xx), all three (2xx without a usable answer), total and
    successful. *)
Definition counted (st st' : Stats) : Prop :=
  st' = st
  \/ st' = incr_failed st
  \/ st' = incr_failed (incr_total st)
  \/ st' = incr_failed (incr_successful (incr_total st))
  \/ st' = incr_successful (incr_total st).

Definition bracketed (s : Agent) : Prop := stats_bracket (stats s).

(** ** Concrete worlds and configurations, for examples *)

Definition steady_jitter : Jitter := @mkJitter 1 eq_refl.

(** A world that answers every request to an endpoint the same way; its
    clock starts at 1000 and advances one second per reading. *)
Definition constant_world (token_answer search_answer artist_answer : option Response)
  : Oracle :=
  mkOracle
    (fun r _ =>
       match r with
       | TokenRequest => token_answer
       | SearchRequest _ _ => search_answer
       | ArtistRequest _ _ => artist_answer
       end)
    (fun n => 1000 + inject_Z (Z.of_nat n))%Q
    (fun _ => steady_jitter).

Definition answer (body : json) : option Response :=
  Some (mkResponse true (Some body)).

Definition token_body : json :=
  JObj [("access_token", JStr "BQD"); ("expires_in", JNum 3600)]%string.

Definition search_body : json :=
  JObj [("artists",
         JObj [("items", JArr [JObj [("id", JStr "06HL4z0CvFAxyc27GXpf02")]])])]%string.

Definition empty_search_body : json :=
  JObj [("artists", JObj [("items", JArr [])])]%string.

Definition artist_body : json :=
  JObj [("name", JStr "Taylor Swift"); ("genres", JArr [JStr "pop"]);
        ("popularity", JNum 100)]%string.

(** Every request succeeds and every record has a name and a genre. *)
Definition healthy_world : Oracle :=
  constant_world (answer token_body) (answer search_body) (answer artist_body).

(** Searches answer 200 with no item. *)
Definition no_match_world : Oracle :=
  constant_world (answer token_body) (answer empty_search_body) (answer artist_body).

(** Searches raise (no connection); the token endpoint works. *)
Definition search_down_world : Oracle :=
  constant_world (answer token_body) None (answer artist_body).

(** The token endpoint is unreachable. *)
Definition no_auth_world : Oracle :=
  constant_world None (answer search_body) (answer artist_body).

(** The token endpoint answers 200 with a body that lacks [expires_in]. *)
Definition partial_token_world : Oracle :=
  constant_world (answer (JObj [("access_token", JStr "new")]%string))
                 (answer search_body) (answer artist_body).

Definition example_config (names : list string) (min_delay : Q) : Config :=
  mkConfig (Some "client"%string) (Some "secret"%string) names
           (Some (mkSettings (Some min_delay))).

(** The agent [__init__] builds from [example_config names min_delay]. *)
Definition fresh_agent (names : list string) (min_delay : Q) : Agent :=
  mkAgent (example_config names min_delay) JNull None [] (mkStats 0 0 0 0)
          min_delay 0 [].

(** An agent that already holds a token, obtained at clock reading 500 with
    a lifetime of one hour. *)
Definition agent_with_token : Agent :=
  mkAgent (example_config [] 1) (JStr "old") (Some 4100) [] (mkStats 0 0 0 0)
          1 0 [].

(** ** Further observations on states and traces *)

(** The trace only grows. *)
Definition extends (s s' : Agent) : Prop :=
  exists rest, trace s' = trace s ++ rest.

(** The agent after [n] calls of [respectful_delay] in a row, whatever each
    call returned. *)
Definition after_decays (world : Oracle) (n : nat) (s : Agent) : Agent :=
  Nat.iter n (fun s' => snd (respectful_delay world s')) s.

Definition is_lookup (e : Event) : bool :=
  match e with
  | Http (SearchRequest _ _) | Http (ArtistRequest _ _) => true
  | _ => false
  end.

(** Search and detail requests recorded in a trace. *)
Definition lookups (t : list Event) : nat := List.length (filter is_lookup t).

Definition lookups_made (s : Agent) : nat := lookups (trace s).

(** The names whose processing a trace records, oldest first: [run] writes
    "Processing artist: ..." when it takes a name from the list, and nothing
    else writes it. *)
Fixpoint processed (t : list Event) : list string :=
  match t with
  | [] => []
  | Log (LogProcessing name) :: rest => name :: processed rest
  | _ :: rest => processed rest
  end.

Definition names_processed (s : Agent) : list string := processed (trace s).

(** At most [k] lookups were sent on the way from [s] to [s']. *)
Definition within (k : nat) (s s' : Agent) : Prop :=
  (lookups_made s' <= lookups_made s + k)%nat.

(** No counter has gone down and the records are the old ones followed by
    new ones. *)
Definition never_less (s s' : Agent) : Prop :=
  (total_requests (stats s) <= total_requests (stats s'))%Z
  /\ (successful_requests (stats s) <= successful_requests (stats s'))%Z
  /\ (failed_requests (stats s) <= failed_requests (stats s'))%Z
  /\ (quality_passed (stats s) <= quality_passed (stats s'))%Z
  /\ exists new, collected_artists s' = collected_artists s ++ new.

(** A record as the quality gate lets it through: a name and a genre
    collection that are both truthy. *)
Definition through_gate (a : Artist) : Prop :=
  Py.truthy (artist_name a) = true /\ Py.truthy (artist_genres a) = true.

Definition all_through_gate (s : Agent) : Prop :=
  Forall through_gate (collected_artists s).

Definition is_collected (b : Branch) : bool :=
  match b with Collected => true | _ => false end.

Definition count_collected (bs : list Branch) : nat :=
  List.length (filter is_collected bs).

(** ** The report *)

(** [str(n)] for an integer. *)
Definition str_int (n : Z) : string := NilZero.string_of_int (Z.to_int n).

(** What [generate_report] passes to [f.write], in order, [date] being
    [datetime.now().isoformat()]; the directory and the file it opens are
    left out. *)
Definition report_writes (date : string) (s : Agent) : list string :=
  let total := total_requests (stats s) in
  let success := successful_requests (stats s) in
  let failed := failed_requests (stats s) in
  let quality := quality_passed (stats s) in
  [ "Spotify AI Data Collection Report" ++ String "010" "";
    "Date: " ++ date ++ String "010" (String "010" "");
    "Total API Requests: " ++ str_int total ++ String "010" "";
    "Successful API Requests: " ++ str_int success ++ String "010" "";
    "Failed API Requests: " ++ str_int failed ++ String "010" "";
    "Artists Passed Quality Check: " ++ str_int quality ++ String "010" "";
    "Collected Artist Count: "
      ++ str_int (Z.of_nat (List.length (collected_artists s))) ++ String "010" ""
  ]%string.

(** Detail fetches answer with a record whose [followers] is [null]. *)
Definition null_followers_world : Oracle :=
  constant_world (answer token_body) (answer search_body)
    (answer (JObj [("name", JStr "A"); ("genres", JArr [JStr "pop"]);
                   ("followers", JNull)]%string)).

(** * Properties *)

(** ** Rational comparisons *)

Lemma Qlt_bool_true (a b : Q) : Py.Qlt_bool a b = true <-> (a < b)%Q.
Proof.
  unfold Py.Qlt_bool. rewrite negb_true_iff.
  split; intro H.
  - apply Qnot_le_lt. intro Hle. apply Qle_bool_iff in Hle. congruence.
  - destruct (Qle_bool b a) eqn:E; [|reflexivity].
    apply Qle_bool_iff in E. exfalso. apply (Qlt_not_le _ _ H E).
Qed.

Lemma Qlt_bool_false (a b : Q) : Py.Qlt_bool a b = false <-> (b <= a)%Q.
Proof.
  unfold Py.Qlt_bool. rewrite negb_false_iff. apply Qle_bool_iff.
Qed.

Lemma py_min_Qmin (a b : Q) : (Py.min a b == Qmin a b)%Q.
Proof.
  unfold Py.min.
  destruct (Py.Qlt_bool b a) eqn:E.
  - apply Qlt_bool_true in E.
    destruct (Q.min_spec a b) as [[H ->] | [H ->]]; [lra | reflexivity].
  - apply Qlt_bool_false in E.
    destruct (Q.min_spec a b) as [[H ->] | [H ->]]; [reflexivity | lra].
Qed.

Lemma py_max_Qmax (a b : Q) : (Py.max a b == Qmax a b)%Q.
Proof.
  unfold Py.max.
  destruct (Py.Qlt_bool a b) eqn:E.
  - apply Qlt_bool_true in E.
    destruct (Q.max_spec a b) as [[H ->] | [H ->]]; [reflexivity | lra].
  - apply Qlt_bool_false in E.
    destruct (Q.max_spec a b) as [[H ->] | [H ->]]; [lra | reflexivity].
Qed.

Lemma jitter_positive (j : Jitter) : (0 < jitter_value j)%Q.
Proof.
  destruct j as [v Hv]; simpl.
  apply andb_true_iff in Hv. destruct Hv as [Hlo _].
  apply Qle_bool_iff in Hlo.
  assert (0 < 8 # 10)%Q by reflexivity. lra.
Qed.

Lemma pow2_succ (n : nat) :
  (inject_Z (2 ^ Z.of_nat (S n)) == 2 * inject_Z (2 ^ Z.of_nat n))%Q.
Proof.
  rewrite Nat2Z.inj_succ, Z.pow_succ_r by lia.
  rewrite inject_Z_mult. reflexivity.
Qed.

Lemma pow2_positive (n : nat) : (0 < inject_Z (2 ^ Z.of_nat n))%Q.
Proof.
  replace 0%Q with (inject_Z 0) by reflexivity.
  rewrite <- Zlt_Qlt. apply Z.pow_pos_nonneg; lia.
Qed.

(** ** One call of the Rate Controller *)

Section RateController.

Variable world : Oracle.

Lemma adapt_delay_delay (s : Agent) :
  delay (snd (adapt_delay s)) = Py.min (delay s * 2) 10.
Proof.
  unfold adapt_delay, bind, gets, modify, log, sleep, raise; simpl.
  destruct (Py.Qlt_bool _ 0); reflexivity.
Qed.

Lemma adapt_delay_config (s : Agent) :
  config (snd (adapt_delay s)) = config s.
Proof.
  unfold adapt_delay, bind, gets, modify, log, sleep, raise; simpl.
  destruct (Py.Qlt_bool _ 0); reflexivity.
Qed.

Lemma adapt_delay_returns (s : Agent) :
  (0 <= delay s)%Q -> fst (adapt_delay s) = Ok tt.
Proof.
  intro H.
  unfold adapt_delay, bind, gets, modify, log, sleep, raise; simpl.
  destruct (Py.Qlt_bool _ 0) eqn:E; [|reflexivity].
  apply Qlt_bool_true in E. rewrite py_min_Qmin in E.
  destruct (Q.min_spec (delay s * 2) 10) as [[_ Hm] | [_ Hm]];
    rewrite Hm in E; lra.
Qed.

Lemma respectful_delay_config (s : Agent) :
  config (snd (respectful_delay world s)) = config s.
Proof.
  unfold respectful_delay, bind, gets, modify, log, sleep, raise, lift,
    random_uniform; simpl.
  destruct (Py.Qlt_bool (_ * _) 0); simpl; [reflexivity|].
  destruct (Py.Qlt_bool _ (delay s)); simpl; [|reflexivity].
  destruct (config_min_delay (config s)); reflexivity.
Qed.

(** What [respectful_delay] leaves in [delay]: the old value, or the decayed
    one when the old value is above the configured floor and the
    configuration really holds that floor. *)
Lemma respectful_delay_delay (s : Agent) :
  delay (snd (respectful_delay world s)) = delay s
  \/ ((configured_min_delay (config s) < delay s)%Q
      /\ delay (snd (respectful_delay world s))
         = Py.max (delay s * (9 # 10)) (configured_min_delay (config s))).
Proof.
  unfold respectful_delay, bind, gets, modify, log, sleep, raise, lift,
    random_uniform; simpl.
  destruct (Py.Qlt_bool (_ * _) 0); simpl; [left; reflexivity|].
  destruct (Py.Qlt_bool _ (delay s)) eqn:E; simpl; [|left; reflexivity].
  apply Qlt_bool_true in E.
  unfold config_min_delay, configured_min_delay in *.
  destruct (collection_settings (config s)) as [cs|]; [|left; reflexivity].
  destruct (min_delay_seconds cs); [right; split; [exact E | reflexivity]
                                   | left; reflexivity].
Qed.

Lemma adapt_delay_in_range (s : Agent) :
  (0 <= configured_min_delay (config s))%Q ->
  delay_in_range s -> delay_in_range (snd (adapt_delay s)).
Proof.
  unfold delay_in_range. intros H0 [Hlo Hhi].
  rewrite adapt_delay_config, adapt_delay_delay, py_min_Qmin.
  destruct (Q.min_spec (delay s * 2) 10) as [[H ->] | [H ->]]; split; lra.
Qed.

Lemma respectful_delay_in_range (s : Agent) :
  (0 <= configured_min_delay (config s))%Q ->
  delay_in_range s -> delay_in_range (snd (respectful_delay world s)).
Proof.
  unfold delay_in_range. intros H0 [Hlo Hhi].
  rewrite respectful_delay_config.
  destruct (respectful_delay_delay s) as [-> | [Hgt ->]]; [split; assumption|].
  rewrite py_max_Qmax.
  destruct (Q.max_spec (delay s * (9 # 10)) (configured_min_delay (config s)))
    as [[H ->] | [H ->]]; split; lra.
Qed.

Lemma after_calls_config (calls : list RateCall) (s : Agent) :
  config (after_calls world calls s) = config s.
Proof.
  revert s. induction calls as [|c calls IH]; intro s; simpl; [reflexivity|].
  unfold after_calls in *; simpl. rewrite IH.
  destruct c; [apply adapt_delay_config | apply respectful_delay_config].
Qed.

Lemma after_calls_in_range (calls : list RateCall) (s : Agent) :
  (0 <= configured_min_delay (config s))%Q ->
  delay_in_range s -> delay_in_range (after_calls world calls s).
Proof.
  revert s. induction calls as [|c calls IH]; intros s H0 Hs; [exact Hs|].
  unfold after_calls in *; simpl. apply IH.
  - destruct c; simpl;
      [rewrite adapt_delay_config | rewrite respectful_delay_config]; exact H0.
  - destruct c; simpl;
      [apply adapt_delay_in_range | apply respectful_delay_in_range]; assumption.
Qed.

Lemma after_failures_succ (n : nat) (s : Agent) :
  after_failures (S n) s = snd (adapt_delay (after_failures n s)).
Proof. reflexivity. Qed.

End RateController.

(** ** Escalation under consecutive failures *)

Lemma after_failures_formula (s : Agent) (N : nat) :
  (delay s == configured_min_delay (config s))%Q ->
  (configured_min_delay (config s) <= 10)%Q ->
  (delay (after_failures N s)
   == Qmin (configured_min_delay (config s) * inject_Z (2 ^ Z.of_nat N)) 10)%Q.
Proof.
  intros Hstart Hhi.
  set (f := configured_min_delay (config s)) in *.
  induction N as [|N IH].
  - simpl. change (inject_Z (2 ^ 0)) with 1%Q.
    destruct (Q.min_spec (f * 1) 10) as [[H ->] | [H ->]]; lra.
  - rewrite after_failures_succ, adapt_delay_delay, py_min_Qmin.
    assert (Hp : (f * inject_Z (2 ^ Z.of_nat (S N))
                  == 2 * (f * inject_Z (2 ^ Z.of_nat N)))%Q).
    { rewrite pow2_succ. ring. }
    set (x := (f * inject_Z (2 ^ Z.of_nat N))%Q) in *.
    set (y := (f * inject_Z (2 ^ Z.of_nat (S N)))%Q) in *.
    set (d := delay (after_failures N s)) in *.
    destruct (Q.min_spec x 10) as [[H1 E1] | [H1 E1]];
      destruct (Q.min_spec (d * 2) 10) as [[H2 ->] | [H2 ->]];
      destruct (Q.min_spec y 10) as [[H3 ->] | [H3 ->]];
      rewrite E1 in IH; lra.
Qed.

(** C4 (amended): starting from [delay = floor_delay] with
    [0 <= floor_delay <= 10], after [N] consecutive calls of [adapt_delay]
    the delay is [min(floor_delay * 2^N, 10)], and one more failure never
    lowers it. *)
Theorem consecutive_failures_escalate (s : Agent) (N : nat) :
  (delay s == configured_min_delay (config s))%Q ->
  (0 <= configured_min_delay (config s) <= 10)%Q ->
  (delay (after_failures N s)
   == Qmin (configured_min_delay (config s) * inject_Z (2 ^ Z.of_nat N)) 10)%Q
  /\ (delay (after_failures N s) <= delay (after_failures (S N) s))%Q.
Proof.
  intros Hstart [Hlo Hhi].
  pose proof (after_failures_formula s N Hstart Hhi) as HN.
  split; [exact HN|].
  rewrite after_failures_succ, adapt_delay_delay, py_min_Qmin.
  assert (Hx : (0 <= configured_min_delay (config s) * inject_Z (2 ^ Z.of_nat N))%Q).
  { apply Qmult_le_0_compat; [exact Hlo | apply Qlt_le_weak, pow2_positive]. }
  set (x := (configured_min_delay (config s) * inject_Z (2 ^ Z.of_nat N))%Q) in *.
  set (d := delay (after_failures N s)) in *.
  destruct (Q.min_spec x 10) as [[H1 E1] | [H1 E1]];
    destruct (Q.min_spec (d * 2) 10) as [[H2 ->] | [H2 ->]];
    rewrite E1 in HN; lra.
Qed.

Lemma consecutive_failures_escalate_witness :
  (delay (after_failures 3 (fresh_agent [] 1))
   == Qmin (configured_min_delay (config (fresh_agent [] 1))
            * inject_Z (2 ^ Z.of_nat 3)) 10)%Q
  /\ (delay (after_failures 3 (fresh_agent [] 1))
      <= delay (after_failures 4 (fresh_agent [] 1)))%Q.
Proof.
  apply (consecutive_failures_escalate (fresh_agent [] 1) 3).
  - reflexivity.
  - split; vm_compute; discriminate.
Defined.

(** C4 as stated fails when the configured floor is above the constant
    ceiling: with [min_delay_seconds = 15] the delay before any failure is 15,
    not [min(15 * 2^0, 10) = 10], and the first failure lowers it to 10.  A
    negative floor escalates downwards. *)
Lemma consecutive_failures_counterexample :
  init (example_config [] 15) = Ok (fresh_agent [] 15)
  /\ ~ (delay (after_failures 0 (fresh_agent [] 15))
        == Qmin (configured_min_delay (config (fresh_agent [] 15))
                 * inject_Z (2 ^ Z.of_nat 0)) 10)%Q
  /\ (delay (after_failures 1 (fresh_agent [] 15))
      < delay (after_failures 0 (fresh_agent [] 15)))%Q
  /\ (delay (after_failures 1 (fresh_agent [] (-1)))
      < delay (after_failures 0 (fresh_agent [] (-1))))%Q.
Proof.
  split; [reflexivity|].
  split; [vm_compute; discriminate|].
  split; reflexivity.
Qed.

(** ** The delay stays between floor and ceiling *)

(** C5 (amended): when the configured floor satisfies
    [0 <= floor_delay <= 10], the delay starts at the floor and stays within
    [floor_delay, 10] after every sequence of [adapt_delay] and
    [respectful_delay] calls; escalation never exceeds the ceiling and decay
    never undershoots the floor. *)
Theorem delay_stays_in_range (world : Oracle) (c : Config) (s0 : Agent)
    (calls : list RateCall) :
  init c = Ok s0 ->
  (0 <= configured_min_delay c <= 10)%Q ->
  delay s0 = configured_min_delay c
  /\ delay_in_range (after_calls world calls s0)
  /\ (delay (snd (adapt_delay (after_calls world calls s0))) <= 10)%Q
  /\ (configured_min_delay c
      <= delay (snd (respectful_delay world (after_calls world calls s0))))%Q.
Proof.
  intros Hinit [Hlo Hhi].
  unfold init in Hinit.
  destruct (negb (present (client_id c)) || negb (present (client_secret c)))%bool;
    [discriminate|].
  injection Hinit as <-.
  set (s0 := mkAgent c JNull None [] (mkStats 0 0 0 0) (configured_min_delay c) 0 []).
  assert (Hs0 : delay_in_range s0).
  { unfold delay_in_range; simpl. split; [apply Qle_refl | exact Hhi]. }
  assert (Hrange : delay_in_range (after_calls world calls s0)).
  { apply after_calls_in_range; [exact Hlo | exact Hs0]. }
  assert (Hcfg : config (after_calls world calls s0) = c).
  { rewrite after_calls_config. reflexivity. }
  split; [reflexivity|]. split; [exact Hrange|]. split.
  - apply (adapt_delay_in_range (after_calls world calls s0)).
    + rewrite Hcfg. exact Hlo.
    + exact Hrange.
  - pose proof (respectful_delay_in_range world (after_calls world calls s0)) as H.
    rewrite Hcfg in H. specialize (H Hlo Hrange).
    unfold delay_in_range in H. rewrite respectful_delay_config, Hcfg in H.
    apply H.
Qed.

Lemma delay_stays_in_range_witness :
  delay (fresh_agent [] 1) = configured_min_delay (example_config [] 1)
  /\ delay_in_range
       (after_calls healthy_world [OnFailure; OnFailure; WaitAndDecay]
                    (fresh_agent [] 1))
  /\ (delay (snd (adapt_delay
        (after_calls healthy_world [OnFailure; OnFailure; WaitAndDecay]
                     (fresh_agent [] 1)))) <= 10)%Q
  /\ (configured_min_delay (example_config [] 1)
      <= delay (snd (respectful_delay healthy_world
           (after_calls healthy_world [OnFailure; OnFailure; WaitAndDecay]
                        (fresh_agent [] 1)))))%Q.
Proof.
  apply (delay_stays_in_range healthy_world (example_config [] 1)
           (fresh_agent [] 1) [OnFailure; OnFailure; WaitAndDecay]).
  - reflexivity.
  - split; vm_compute; discriminate.
Defined.

(** C5 as stated fails when the configured floor is above the constant
    ceiling: with [min_delay_seconds = 15] the delay starts at 15, above 10,
    and one failure puts it at 10, below the floor, where decay leaves it. *)
Lemma delay_range_counterexample :
  init (example_config [] 15) = Ok (fresh_agent [] 15)
  /\ ~ delay_in_range (after_calls healthy_world [] (fresh_agent [] 15))
  /\ ~ delay_in_range (after_calls healthy_world [OnFailure] (fresh_agent [] 15))
  /\ ~ delay_in_range
         (after_calls healthy_world [OnFailure; WaitAndDecay] (fresh_agent [] 15)).
Proof.
  split; [reflexivity|].
  unfold delay_in_range.
  repeat split; intros [Hlo Hhi]; vm_compute in Hlo, Hhi; congruence.
Qed.

(** ** Composing what a computation respects *)

Section Respects.

Variable R : Agent -> Agent -> Prop.
Hypothesis R_refl : forall s, R s s.
Hypothesis R_trans : forall a b c, R a b -> R b c -> R a c.

Lemma respects_ret {A} (a : A) : respects R (ret a).
Proof. intro s. apply R_refl. Qed.

Lemma respects_raise {A} (e : exn) : respects R (@raise A e).
Proof. intro s. apply R_refl. Qed.

Lemma respects_lift {A} (r : result A) : respects R (lift r).
Proof. intro s. apply R_refl. Qed.

Lemma respects_gets {A} (f : Agent -> A) : respects R (gets f).
Proof. intro s. apply R_refl. Qed.

Lemma respects_modify (f : Agent -> Agent) :
  (forall s, R s (f s)) -> respects R (modify f).
Proof. intros H s. apply H. Qed.

Lemma respects_bind {A B} (m : M A) (k : A -> M B) :
  respects R m -> (forall a, respects R (k a)) -> respects R (bind m k).
Proof.
  intros Hm Hk s. unfold bind.
  specialize (Hm s). destruct (m s) as [[a | e] s1]; simpl in *.
  - apply R_trans with s1; [exact Hm | apply Hk].
  - exact Hm.
Qed.

Lemma respects_try_except {A} (body : M A) (handler : exn -> M A) :
  respects R body -> (forall e, respects R (handler e)) ->
  respects R (try_except body handler).
Proof.
  intros Hb Hh s. unfold try_except.
  specialize (Hb s). destruct (body s) as [[a | e] s1]; simpl in *.
  - exact Hb.
  - apply R_trans with s1; [exact Hb | apply Hh].
Qed.

Lemma respects_log (l : LogLine) :
  (forall s, R s (emit (Log l) s)) -> respects R (log l).
Proof. intro H. apply respects_modify, H. Qed.

Lemma respects_bump (f : Stats -> Stats) :
  (forall s, R s (set_stats (f (stats s)) s)) -> respects R (bump f).
Proof. intro H. apply respects_modify, H. Qed.

Lemma respects_sleep (x : Q) :
  (forall s, R s (emit (Sleep x) s)) -> respects R (sleep x).
Proof.
  intro H. unfold sleep.
  destruct (Py.Qlt_bool x 0); [apply respects_raise | apply respects_modify, H].
Qed.

Lemma respects_raise_for_status (r : Response) : respects R (raise_for_status r).
Proof.
  unfold raise_for_status.
  destruct (status_ok r); [apply respects_ret | apply respects_raise].
Qed.

Lemma respects_response_json (r : Response) : respects R (response_json r).
Proof.
  unfold response_json.
  destruct (json_body r); [apply respects_ret | apply respects_raise].
Qed.

Variable world : Oracle.

Lemma respects_now_timestamp :
  (forall s, R s (next_tick s)) -> respects R (now_timestamp world).
Proof. intros H s. apply H. Qed.

Lemma respects_random_uniform :
  (forall s, R s (next_tick s)) -> respects R (random_uniform world).
Proof. intros H s. apply H. Qed.

Lemma respects_requests_send (r : Request) :
  (forall s, R s (emit (Http r) (next_tick s))) ->
  respects R (requests_send world r).
Proof.
  intros H s. unfold requests_send.
  destruct (http world r (tick s)); apply H.
Qed.

End Respects.

Lemma unchanged_refl {X} (f : Agent -> X) (s : Agent) : unchanged f s s.
Proof. reflexivity. Qed.

Lemma unchanged_trans {X} (f : Agent -> X) (a b c : Agent) :
  unchanged f a b -> unchanged f b c -> unchanged f a c.
Proof. unfold unchanged. congruence. Qed.

Lemma keeps_refl (P : Agent -> Prop) (s : Agent) : keeps P s s.
Proof. intro H. exact H. Qed.

Lemma keeps_trans (P : Agent -> Prop) (a b c : Agent) :
  keeps P a b -> keeps P b c -> keeps P a c.
Proof. unfold keeps. auto. Qed.

(** Counting in a trace that grows by one event. *)

Lemma network_calls_emit (e : Event) (t : list Event) :
  network_calls (t ++ [e]) = (network_calls t + (if is_http e then 1 else 0))%nat.
Proof.
  unfold network_calls. rewrite filter_app, length_app. simpl.
  destruct (is_http e); reflexivity.
Qed.

Lemma respectful_delays_emit (e : Event) (t : list Event) :
  respectful_delays (t ++ [e])
  = (respectful_delays t + (if is_sleeping_line e then 1 else 0))%nat.
Proof.
  unfold respectful_delays. rewrite filter_app, length_app. simpl.
  destruct (is_sleeping_line e); reflexivity.
Qed.

(** Splits a goal [respects R m] along the structure of [m], leaving the
    steps that change the agent. *)
Ltac respects_step Hrefl Htrans :=
  lazymatch goal with
  | |- respects _ (ret _) => apply (respects_ret _ Hrefl)
  | |- respects _ (raise _) => apply (respects_raise _ Hrefl)
  | |- respects _ (lift _) => apply (respects_lift _ Hrefl)
  | |- respects _ (gets _) => apply (respects_gets _ Hrefl)
  | |- respects _ (raise_for_status _) => apply (respects_raise_for_status _ Hrefl)
  | |- respects _ (response_json _) => apply (respects_response_json _ Hrefl)
  | |- respects _ (bind _ _) => apply (respects_bind _ Htrans); [| intro]
  | |- respects _ (try_except _ _) => apply (respects_try_except _ Htrans); [| intro]
  | |- respects _ (log _) => apply respects_log; intro
  | |- respects _ (bump _) => apply respects_bump; intro
  | |- respects _ (sleep _) => apply (respects_sleep _ Hrefl); intro
  | |- respects _ (modify _) => apply respects_modify; intro
  | |- respects _ (now_timestamp _) => apply respects_now_timestamp; intro
  | |- respects _ (random_uniform _) => apply respects_random_uniform; intro
  | |- respects _ (requests_send _ _) => apply respects_requests_send; intro
  | |- respects _ (if ?b then _ else _) => destruct b
  | |- respects _ (match ?x with _ => _ end) => destruct x
  end.

Ltac respects_unchanged f :=
  repeat respects_step (unchanged_refl f) (unchanged_trans f).

(** ** Token Manager *)

Lemma try_except_bind {A B} (m : M A) (k : A -> M B) (h : exn -> M B) (s : Agent) :
  try_except (bind m k) h s
  = match m s with
    | (Ok a, s1) => try_except (k a) h s1
    | (Raise e, s1) => h e s1
    end.
Proof.
  unfold try_except, bind. destruct (m s) as [[a | e] s1]; reflexivity.
Qed.

Ltac count_calls :=
  unfold unchanged, calls_made; simpl;
  try rewrite network_calls_emit; simpl; lia.

Section TokenManager.

Variable world : Oracle.

(** A refresh makes exactly one network call, whether it succeeds or not. *)
Lemma get_access_token_one_call (s : Agent) :
  calls_made (snd (get_access_token world s)) = S (calls_made s).
Proof.
  unfold get_access_token. rewrite try_except_bind.
  unfold requests_send.
  destruct (http world TokenRequest (tick s)) as [response |].
  - match goal with
    | |- calls_made (snd (?m ?s1)) = _ =>
        assert (H : respects (unchanged calls_made) m)
          by (respects_unchanged calls_made; count_calls);
        rewrite (H s1)
    end.
    count_calls.
  - simpl. unfold calls_made; simpl.
    rewrite !network_calls_emit. simpl. lia.
Qed.

(** A refresh that returns has stored an expiry. *)
Lemma get_access_token_sets_expiry (s s1 : Agent) :
  get_access_token world s = (Ok tt, s1) ->
  exists e, token_expiry s1 = Some e.
Proof.
  unfold get_access_token, try_except, bind, requests_send, raise_for_status,
    response_json, lift, modify, now_timestamp, log, raise, ret.
  destruct (http world TokenRequest (tick s)) as [[ok body] |]; simpl;
    [| discriminate].
  destruct ok; simpl; [| discriminate].
  destruct body as [data |]; simpl; [| discriminate].
  destruct (Py.subscript data "access_token"); simpl; [| discriminate].
  destruct (Py.subscript data "expires_in") as [x |]; simpl; [| discriminate].
  destruct (Py.add_float _ x) as [expiry |]; simpl; [| discriminate].
  intro H. injection H as <-. simpl. eauto.
Qed.

(** [ensure_token_valid] as a case split on the agent it starts from. *)
Lemma ensure_token_valid_cases (s : Agent) :
  ensure_token_valid world s
  = if is_none (token s) then get_access_token world s
    else match token_expiry s with
         | None => (Raise TypeError, next_tick s)
         | Some e =>
             if Py.Qlt_bool (e - 60) (clock world (tick s))
             then get_access_token world (next_tick s)
             else (Ok tt, next_tick s)
         end.
Proof.
  unfold ensure_token_valid, bind, gets, now_timestamp.
  destruct (is_none (token s)); [reflexivity|]. simpl.
  destruct (token_expiry s) as [e |]; [| reflexivity].
  destruct (Py.Qlt_bool (e - 60) (clock world (tick s))); reflexivity.
Qed.

Lemma is_none_false (j : json) : is_none j = false <-> j <> JNull.
Proof. destruct j; simpl; split; congruence. Qed.

Lemma ensure_token_valid_stale (s : Agent) :
  stale s (clock world (tick s)) ->
  ensure_token_valid world s
  = get_access_token world (if is_none (token s) then s else next_tick s).
Proof.
  intros [Hnone | [e [He Hlt]]]; unfold ensure_token_valid, bind, gets.
  - rewrite Hnone. reflexivity.
  - destruct (is_none (token s)); [reflexivity|].
    unfold now_timestamp; simpl. rewrite He.
    apply Qlt_bool_true in Hlt. rewrite Hlt. reflexivity.
Qed.

Lemma ensure_token_valid_still_valid (s : Agent) :
  still_valid s (clock world (tick s)) ->
  ensure_token_valid world s = (Ok tt, next_tick s).
Proof.
  intros [Htok [e [He Hle]]]. unfold ensure_token_valid, bind, gets.
  destruct (token s) eqn:Et; try congruence; simpl;
    rewrite He; apply Qlt_bool_false in Hle; rewrite Hle; reflexivity.
Qed.

(** Without a stale token the call reads the clock and does nothing else. *)
Lemma ensure_token_valid_not_stale (s : Agent) :
  ~ stale s (clock world (tick s)) ->
  snd (ensure_token_valid world s) = next_tick s.
Proof.
  intro Hn. unfold ensure_token_valid, bind, gets.
  destruct (token s) eqn:Et;
    try (exfalso; apply Hn; left; exact Et); simpl;
    (destruct (token_expiry s) as [e |] eqn:He; [| reflexivity];
     destruct (Py.Qlt_bool (e - 60) (clock world (tick s))) eqn:Hlt;
     [| reflexivity];
     exfalso; apply Hn; right; exists e; split;
     [exact He | apply Qlt_bool_true; exact Hlt]).
Qed.

Lemma ensure_token_valid_sets_expiry (s s1 : Agent) :
  ensure_token_valid world s = (Ok tt, s1) ->
  exists e, token_expiry s1 = Some e.
Proof.
  unfold ensure_token_valid, bind, gets.
  destruct (is_none (token s)).
  - apply get_access_token_sets_expiry.
  - unfold now_timestamp; simpl.
    destruct (token_expiry s) as [e |] eqn:He; [| discriminate].
    destruct (Py.Qlt_bool (e - 60) (clock world (tick s))).
    + apply get_access_token_sets_expiry.
    + intro H. injection H as <-. simpl. eauto.
Qed.


End TokenManager.


(** ** Failed refreshes *)

(** When the exchange fails before [access_token] has been read (the call
    raises, the status is not 2xx, the body is not JSON, or the body has no
    readable [access_token]), the refresh raises and leaves token and expiry
    as they were. *)
Lemma get_access_token_early_failure (world : Oracle) (s : Agent) :
  match http world TokenRequest (tick s) with
  | None => True
  | Some response =>
      status_ok response = false
      \/ match json_body response with
         | None => True
         | Some data => exists e, Py.subscript data "access_token" = Raise e
         end
  end ->
  exists e s',
    get_access_token world s = (Raise e, s')
    /\ token s' = token s /\ token_expiry s' = token_expiry s.
Proof.
  unfold get_access_token, try_except, bind, requests_send, raise_for_status,
    response_json, lift, modify, now_timestamp, log, raise, ret.
  destruct (http world TokenRequest (tick s)) as [[ok body] |]; simpl.
  - destruct ok; simpl.
    + intros [Hok | Hbody]; [discriminate|].
      destruct body as [data |]; simpl.
      * destruct Hbody as [e He]. rewrite He. simpl. eauto.
      * eauto.
    + eauto.
  - eauto.
Qed.

(** Whatever the failure, the expiry is left as it was. *)
Lemma get_access_token_failure_expiry (world : Oracle) (s s' : Agent) (e : exn) :
  get_access_token world s = (Raise e, s') ->
  token_expiry s' = token_expiry s.
Proof.
  unfold get_access_token, try_except, bind, requests_send, raise_for_status,
    response_json, lift, modify, now_timestamp, log, raise, ret.
  destruct (http world TokenRequest (tick s)) as [[ok body] |]; simpl.
  - destruct ok; simpl; [| intro H; injection H as _ <-; reflexivity].
    destruct body as [data |]; simpl; [| intro H; injection H as _ <-; reflexivity].
    destruct (Py.subscript data "access_token"); simpl;
      [| intro H; injection H as _ <-; reflexivity].
    destruct (Py.subscript data "expires_in") as [x |]; simpl;
      [| intro H; injection H as _ <-; reflexivity].
    destruct (Py.add_float _ x); simpl;
      [discriminate | intro H; injection H as _ <-; reflexivity].
  - intro H; injection H as _ <-; reflexivity.
Qed.

(** C2 (the code departs from it): the token endpoint answers 200 with the
    body [{"access_token": "new"}].  [get_access_token] stores the new token,
    then fails on the missing [expires_in] and raises: the agent is left with
    the new token next to the old expiry. *)
Theorem get_access_token_partial_body :
  exists s',
    get_access_token partial_token_world agent_with_token
    = (Raise (KeyError "expires_in"), s')
    /\ token agent_with_token = JStr "old"
    /\ token s' = JStr "new"
    /\ token_expiry s' = token_expiry agent_with_token.
Proof.
  eexists. split; [vm_compute; reflexivity|].
  repeat split.
Qed.

(** The same failure on a first refresh leaves a token without an expiry,
    and the next [ensure_token_valid] fails on [None - 60]. *)
Lemma first_refresh_partial_body :
  exists s',
    get_access_token partial_token_world (fresh_agent [] 1)
    = (Raise (KeyError "expires_in"), s')
    /\ token s' = JStr "new"
    /\ token_expiry s' = None
    /\ fst (ensure_token_valid partial_token_world s') = Raise TypeError.
Proof.
  eexists. split; [vm_compute; reflexivity|].
  repeat split.
Qed.

(** ** Collection Orchestrator: what the parts leave alone *)

Ltac count_delays :=
  unfold unchanged, delays_made; simpl;
  try rewrite respectful_delays_emit; simpl; lia.

Section Orchestrator.

Variable world : Oracle.

(** Only [respectful_delay] writes the line that marks its calls. *)

Lemma ensure_token_valid_no_pacing :
  respects (unchanged delays_made) (ensure_token_valid world).
Proof.
  unfold ensure_token_valid, get_access_token.
  respects_unchanged delays_made; count_delays.
Qed.

Lemma search_artist_no_pacing (name : string) :
  respects (unchanged delays_made) (search_artist world name).
Proof.
  unfold search_artist, ensure_token_valid, get_access_token, adapt_delay.
  respects_unchanged delays_made; count_delays.
Qed.

Lemma get_artist_details_no_pacing (id : json) :
  respects (unchanged delays_made) (get_artist_details world id).
Proof.
  unfold get_artist_details, ensure_token_valid, get_access_token, adapt_delay.
  respects_unchanged delays_made; count_delays.
Qed.

(** A call of [respectful_delay] that returns has written it once. *)
Lemma respectful_delay_paces_once (s s' : Agent) :
  respectful_delay world s = (Ok tt, s') ->
  delays_made s' = S (delays_made s).
Proof.
  unfold respectful_delay, bind, gets, modify, log, sleep, raise, lift,
    random_uniform, ret; simpl.
  destruct (Py.Qlt_bool (_ * _) 0); simpl; [discriminate|].
  destruct (Py.Qlt_bool _ (delay s)); simpl.
  - destruct (config_min_delay (config s)); simpl; [| discriminate].
    intro H; injection H as <-. unfold delays_made; simpl.
    rewrite !respectful_delays_emit. simpl. lia.
  - intro H; injection H as <-. unfold delays_made; simpl.
    rewrite !respectful_delays_emit. simpl. lia.
Qed.

(** The records and their counter move together. *)

Lemma collect_keeps_counter (record : Artist) (name : string) :
  respects (keeps collected_matches_counter)
    (modify (fun s => set_collected_artists (collected_artists s ++ [record]) s) ;;
     bump incr_quality_passed ;;
     log (LogCollected name) ;;
     ret Collected).
Proof.
  intros s H. unfold collected_matches_counter in *. simpl.
  rewrite length_app. simpl. lia.
Qed.

Ltac keeps_counter :=
  repeat first
    [ apply collect_keeps_counter
    | respects_step (keeps_refl collected_matches_counter)
                    (keeps_trans collected_matches_counter) ];
  try (unfold keeps, collected_matches_counter; simpl; intro; assumption).

Lemma ensure_token_valid_keeps_counter :
  respects (keeps collected_matches_counter) (ensure_token_valid world).
Proof. unfold ensure_token_valid, get_access_token. keeps_counter. Qed.

Lemma adapt_delay_keeps_counter :
  respects (keeps collected_matches_counter) adapt_delay.
Proof. unfold adapt_delay. keeps_counter. Qed.

Lemma respectful_delay_keeps_counter :
  respects (keeps collected_matches_counter) (respectful_delay world).
Proof. unfold respectful_delay. keeps_counter. Qed.

Lemma search_artist_keeps_counter (name : string) :
  respects (keeps collected_matches_counter) (search_artist world name).
Proof.
  unfold search_artist, ensure_token_valid, get_access_token, adapt_delay.
  keeps_counter.
Qed.

Lemma get_artist_details_keeps_counter (id : json) :
  respects (keeps collected_matches_counter) (get_artist_details world id).
Proof.
  unfold get_artist_details, ensure_token_valid, get_access_token, adapt_delay.
  keeps_counter.
Qed.

Lemma run_body_keeps_counter (name : string) :
  respects (keeps collected_matches_counter) (run_body world name).
Proof.
  unfold run_body, search_artist, get_artist_details, respectful_delay,
    ensure_token_valid, get_access_token, adapt_delay.
  keeps_counter.
Qed.

Lemma run_loop_keeps_counter (names : list string) :
  respects (keeps collected_matches_counter) (run_loop world names).
Proof.
  induction names as [| name rest IH]; simpl.
  - apply (respects_ret _ (keeps_refl _)).
  - apply (respects_bind _ (keeps_trans _)); [apply run_body_keeps_counter|].
    intro b.
    apply (respects_bind _ (keeps_trans _)); [exact IH|].
    intro bs. apply (respects_ret _ (keeps_refl _)).
Qed.

Lemma run_keeps_counter :
  respects (keeps collected_matches_counter) (run world).
Proof.
  unfold run.
  repeat first
    [ apply run_loop_keeps_counter
    | respects_step (keeps_refl collected_matches_counter)
                    (keeps_trans collected_matches_counter) ];
  unfold keeps, collected_matches_counter; simpl; intro; assumption.
Qed.

End Orchestrator.

(** ** One iteration of the loop *)

Section Iteration.

Variable world : Oracle.

(** [run_body] returns exactly along one of the four ways of [iteration]. *)
Lemma run_body_iteration (name : string) (s : Agent) (b : Branch) (s' : Agent) :
  run_body world name s = (Ok b, s') <-> iteration world name s b s'.
Proof.
  split.
  - unfold run_body, bind, log, modify, lift, ret. 
    destruct (search_artist world name (emit (Log (LogProcessing name)) s))
      as [[artist_basic | e] s1] eqn:Hsearch; [| discriminate].
    destruct (Py.truthy artist_basic) eqn:Hbasic; simpl.
    + destruct (Py.get artist_basic "id") as [id | e] eqn:Hid; [| discriminate].
      destruct (get_artist_details world id s1)
        as [[artist_details | e] s2] eqn:Hdetails; [| discriminate].
      destruct (Py.truthy artist_details) eqn:Htruthy; simpl.
      * destruct (assess_data_quality artist_details) as [[|] | e] eqn:Hq;
          [| | discriminate].
        -- destruct (collected_record id artist_details) as [record | e] eqn:Hr;
             [| discriminate].
           match goal with
           | |- context [respectful_delay world ?x] =>
               change x with (collect record name s2)
           end.
           destruct (respectful_delay world (collect record name s2))
             as [[[] | e] s3] eqn:Hd; [| discriminate].
           intro H; injection H as <- <-.
           eapply iteration_collected; eassumption.
        -- destruct (respectful_delay world (emit (Log (LogQualityFailed name)) s2))
             as [[[] | e] s3] eqn:Hd; [| discriminate].
           intro H; injection H as <- <-.
           eapply iteration_rejected; eassumption.
      * intro H; injection H as <- <-.
        eapply iteration_no_details; eassumption.
    + intro H; injection H as <- <-.
      eapply iteration_no_artist; eassumption.
  - intro H. unfold run_body, bind, log, modify, lift, ret.
    destruct H as [basic s1 Hs Hb
                  | basic id details s1 s2 Hs Hb Hid Hd Ht
                  | basic id details s1 s2 s3 Hs Hb Hid Hd Ht Hq Hr
                  | basic id details record s1 s2 s3 Hs Hb Hid Hd Ht Hq Hrec Hr];
      rewrite Hs, Hb; simpl; try reflexivity;
      rewrite Hid, Hd, Ht; simpl; try reflexivity;
      rewrite Hq.
    + rewrite Hr. reflexivity.
    + rewrite Hrec.
      match goal with
      | |- context [respectful_delay world ?x] =>
          change x with (collect record name s2)
      end.
      rewrite Hr. reflexivity.
Qed.

Lemma iteration_pacing (name : string) (s : Agent) (b : Branch) (s' : Agent) :
  iteration world name s b s' ->
  delays_made s' = (delays_made s + (if paced b then 1 else 0))%nat.
Proof.
  assert (Hstart : delays_made (emit (Log (LogProcessing name)) s) = delays_made s)
    by count_delays.
  intro H.
  destruct H as [basic s1 Hs Hb
                | basic id details s1 s2 Hs Hb Hid Hd Ht
                | basic id details s1 s2 s3 Hs Hb Hid Hd Ht Hq Hr
                | basic id details record s1 s2 s3 Hs Hb Hid Hd Ht Hq Hrec Hr];
    pose proof (search_artist_no_pacing world name
                  (emit (Log (LogProcessing name)) s)) as H1;
    rewrite Hs in H1; unfold unchanged in H1; simpl in H1.
  - unfold delays_made in *; simpl. rewrite respectful_delays_emit. simpl. lia.
  - pose proof (get_artist_details_no_pacing world id s1) as H2.
    rewrite Hd in H2; unfold unchanged in H2; simpl in H2. simpl. lia.
  - pose proof (get_artist_details_no_pacing world id s1) as H2.
    rewrite Hd in H2; unfold unchanged in H2; simpl in H2.
    rewrite (respectful_delay_paces_once world _ _ Hr).
    unfold delays_made in *; simpl. rewrite respectful_delays_emit. simpl. lia.
  - pose proof (get_artist_details_no_pacing world id s1) as H2.
    rewrite Hd in H2; unfold unchanged in H2; simpl in H2.
    rewrite (respectful_delay_paces_once world _ _ Hr).
    unfold delays_made, collect in *; simpl. rewrite respectful_delays_emit. simpl. lia.
Qed.

Lemma run_loop_pacing (names : list string) (s : Agent) (bs : list Branch)
    (s' : Agent) :
  run_loop world names s = (Ok bs, s') ->
  List.length bs = List.length names
  /\ delays_made s' = (delays_made s + count_paced bs)%nat.
Proof.
  revert s bs s'. induction names as [| name rest IH]; intros s bs s'; simpl.
  - unfold ret. intro H; injection H as <- <-. split; [reflexivity|].
    unfold count_paced; simpl. lia.
  - unfold bind, ret.
    destruct (run_body world name s) as [[b | e] s1] eqn:Hb; [| discriminate].
    destruct (run_loop world rest s1) as [[bs' | e] s2] eqn:Hl; [| discriminate].
    intro H; injection H as <- <-.
    destruct (IH _ _ _ Hl) as [Hlen Hcount].
    apply run_body_iteration, iteration_pacing in Hb.
    split; [simpl; congruence|].
    unfold count_paced in *; simpl. destruct (paced b); simpl; lia.
Qed.

End Iteration.

(** ** Pacing between entities *)

(** C3 (amended): [respectful_delay] is called exactly once in an iteration
    that reaches the quality check, whether the record is collected or
    rejected, and not at all in an iteration that ends at an empty or failed
    search or at a failed detail fetch; over a loop that reaches its end the
    calls number the iterations that reached the quality check. *)
Theorem respectful_delay_once_per_fetched_record (world : Oracle) :
  (forall name s b s',
     run_body world name s = (Ok b, s') ->
     delays_made s' = (delays_made s + (if paced b then 1 else 0))%nat)
  /\ (forall names s bs s',
        run_loop world names s = (Ok bs, s') ->
        List.length bs = List.length names
        /\ delays_made s' = (delays_made s + count_paced bs)%nat).
Proof.
  split.
  - intros name s b s' H.
    apply run_body_iteration in H. apply (iteration_pacing world name s b s' H).
  - apply run_loop_pacing.
Qed.

Lemma respectful_delay_once_per_fetched_record_witness :
  delays_made (snd (run_body healthy_world "a" (fresh_agent ["a"%string] 1)))
  = (delays_made (fresh_agent ["a"%string] 1) + 1)%nat
  /\ delays_made (snd (run_body search_down_world "a" (fresh_agent ["a"%string] 1)))
     = (delays_made (fresh_agent ["a"%string] 1) + 0)%nat.
Proof.
  split.
  - apply (proj1 (respectful_delay_once_per_fetched_record healthy_world)
             "a"%string (fresh_agent ["a"%string] 1) Collected).
    vm_compute. reflexivity.
  - apply (proj1 (respectful_delay_once_per_fetched_record search_down_world)
             "a"%string (fresh_agent ["a"%string] 1) NoArtist).
    vm_compute. reflexivity.
Defined.

(** C3 as stated fails: an entity whose search answers with no item, and an
    entity whose search raises, both let the loop advance without a call of
    [respectful_delay]; after the empty answer nothing sleeps at all. *)
Lemma respectful_delay_counterexample :
  (exists s',
     run_body no_match_world "a" (fresh_agent ["a"; "b"]%string 1) = (Ok NoArtist, s')
     /\ delays_made s' = 0%nat
     /\ forall x, ~ In (Sleep x) (trace s'))
  /\ (exists s',
        run_body search_down_world "a" (fresh_agent ["a"; "b"]%string 1)
        = (Ok NoArtist, s')
        /\ delays_made s' = 0%nat).
Proof.
  split.
  - eexists. split; [vm_compute; reflexivity|].
    split; [reflexivity|].
    intros x Hin. simpl in Hin.
    repeat (destruct Hin as [Heq | Hin]; [discriminate Heq|]). exact Hin.
  - eexists. split; [vm_compute; reflexivity|]. reflexivity.
Qed.

(** ** Records and their counter *)

Section Collection.

Variable world : Oracle.

Ltac same_collection :=
  respects_unchanged collection; reflexivity.

Lemma search_artist_collects_nothing (name : string) :
  respects (unchanged collection) (search_artist world name).
Proof.
  unfold search_artist, ensure_token_valid, get_access_token, adapt_delay.
  same_collection.
Qed.

Lemma get_artist_details_collects_nothing (id : json) :
  respects (unchanged collection) (get_artist_details world id).
Proof.
  unfold get_artist_details, ensure_token_valid, get_access_token, adapt_delay.
  same_collection.
Qed.

Lemma respectful_delay_collects_nothing :
  respects (unchanged collection) (respectful_delay world).
Proof. unfold respectful_delay. same_collection. Qed.

(** An iteration changes the records and the counter only by admitting its
    record, once. *)
Lemma iteration_collects (name : string) (s : Agent) (b : Branch) (s' : Agent) :
  iteration world name s b s' ->
  match b with
  | Collected =>
      exists record,
        collected_artists s' = collected_artists s ++ [record]
        /\ quality_passed (stats s') = (quality_passed (stats s) + 1)%Z
  | _ => collection s' = collection s
  end.
Proof.
  intro H.
  destruct H as [basic s1 Hs Hb
                | basic id details s1 s2 Hs Hb Hid Hd Ht
                | basic id details s1 s2 s3 Hs Hb Hid Hd Ht Hq Hr
                | basic id details record s1 s2 s3 Hs Hb Hid Hd Ht Hq Hrec Hr];
    pose proof (search_artist_collects_nothing name
                  (emit (Log (LogProcessing name)) s)) as H1;
    rewrite Hs in H1; unfold unchanged in H1; simpl in H1;
    try (pose proof (get_artist_details_collects_nothing id s1) as H2;
         rewrite Hd in H2; unfold unchanged in H2; simpl in H2).
  - unfold collection in *; simpl in *. exact H1.
  - unfold collection in *; simpl in *. rewrite H2. exact H1.
  - pose proof (respectful_delay_collects_nothing
                  (emit (Log (LogQualityFailed name)) s2)) as H3.
    rewrite Hr in H3; unfold unchanged in H3; simpl in H3.
    unfold collection in *; simpl in *. rewrite H3, H2. exact H1.
  - pose proof (respectful_delay_collects_nothing (collect record name s2)) as H3.
    rewrite Hr in H3; unfold unchanged in H3; simpl in H3.
    exists record. unfold collection, collect in *; simpl in *.
    injection H3 as -> ->. injection H2 as -> ->. injection H1 as -> ->.
    split; reflexivity.
Qed.

End Collection.



(** ** The quality gate *)

(** On a dict the gate is a function of what [name] and [genres] hold. *)
Lemma assess_data_quality_gate (fields : list (string * json)) :
  assess_data_quality (JObj fields)
  = gate (Py.lookup "name" fields) (Py.lookup "genres" fields).
Proof.
  unfold assess_data_quality, gate, Py.get, Py.get_default.
  destruct fields as [| field fields]; simpl; [reflexivity|].
  set (name := if String.eqb "name" (fst field) then Some (snd field)
               else Py.lookup "name" fields).
  set (genres := if String.eqb "genres" (fst field) then Some (snd field)
                 else Py.lookup "genres" fields).
  destruct field as [k v]; simpl in *.
  fold name genres.
  destruct name as [n |]; simpl; [| reflexivity].
  destruct (Py.truthy n); simpl; [| reflexivity].
  destruct genres as [g |]; simpl; reflexivity.
Qed.

(** The gate returns [True] exactly on truthy values under [name] and
    [genres], the second having a length. *)
Lemma gate_true (name genres : option json) :
  gate name genres = Ok true
  <-> exists n g k,
        name = Some n /\ Py.truthy n = true
        /\ genres = Some g /\ Py.truthy g = true /\ Py.len g = Ok k.
Proof.
  unfold gate. split.
  - destruct name as [n |]; [| discriminate].
    destruct (Py.truthy n) eqn:Hn; simpl; [| discriminate].
    destruct genres as [g |]; [| discriminate].
    destruct (Py.truthy g) eqn:Hg; simpl; [| discriminate].
    destruct (Py.len g) as [k | e] eqn:Hk; [| discriminate].
    intros _. exists n, g, k. repeat split; assumption.
  - intros [n [g [k [-> [Hn [-> [Hg Hk]]]]]]].
    rewrite Hn, Hg, Hk. simpl.
    destruct g as [| b | q | str | items | fs]; simpl in *; try discriminate;
      injection Hk as <-.
    + destruct str; [discriminate | reflexivity].
    + destruct items; [discriminate | reflexivity].
    + destruct fs; [discriminate | reflexivity].
Qed.

(** What one iteration does to the records and to [quality_passed] once the
    search has returned an artist and the detail fetch an answer [d]: the
    record is appended and counted when the gate returns [True] and the
    record can be built, and nothing changes otherwise. *)
Lemma run_body_admission (world : Oracle) (name : string) (s s1 s2 : Agent)
    (artist_basic id d : json) :
  search_artist world name (emit (Log (LogProcessing name)) s)
  = (Ok artist_basic, s1) ->
  Py.truthy artist_basic = true ->
  Py.get artist_basic "id" = Ok id ->
  get_artist_details world id s1 = (Ok d, s2) ->
  collection (snd (run_body world name s))
  = match assess_data_quality d, collected_record id d with
    | Ok true, Ok record =>
        (collected_artists s ++ [record], (quality_passed (stats s) + 1)%Z)
    | _, _ => collection s
    end.
Proof.
  intros Hs Hb Hid Hd.
  pose proof (search_artist_collects_nothing world name
                (emit (Log (LogProcessing name)) s)) as H1.
  rewrite Hs in H1. unfold unchanged in H1. simpl in H1.
  pose proof (get_artist_details_collects_nothing world id s1) as H2.
  rewrite Hd in H2. unfold unchanged in H2. simpl in H2.
  assert (H12 : collection s2 = collection s) by (rewrite H2; exact H1).
  unfold run_body, bind, log, modify, lift, ret, bump.
  rewrite Hs, Hb. simpl. rewrite Hid, Hd.
  destruct (Py.truthy d) eqn:Ht; simpl.
  - destruct (assess_data_quality d) as [[|] | e]; simpl.
    + destruct (collected_record id d) as [record | e]; simpl; [| exact H12].
      pose proof (respectful_delay_collects_nothing world
                    (collect record name s2)) as H3.
      unfold unchanged in H3.
      change (respectful_delay world _) with
        (respectful_delay world (collect record name s2)).
      destruct (respectful_delay world (collect record name s2))
        as [[[] | e] s3]; simpl in *;
        rewrite H3; unfold collection, collect in *; simpl;
        injection H12 as -> ->; reflexivity.
    + pose proof (respectful_delay_collects_nothing world
                    (emit (Log (LogQualityFailed name)) s2)) as H3.
      unfold unchanged in H3.
      destruct (respectful_delay world _) as [[[] | e] s3]; simpl in *;
        rewrite H3; destruct (collected_record id d); exact H12.
    + exact H12.
  - assert (Hq : assess_data_quality d = Ok false).
    { unfold assess_data_quality. rewrite Ht. reflexivity. }
    rewrite Hq. exact H12.
Qed.

(** C7 (amended): on a fetched record the gate returns [True] exactly when
    [name] and [genres] both hold a truthy value, the second one with a
    length; so it rejects every record whose genre list is empty and every
    record whose name is missing, [null] or the empty string, accepts every
    record with a non-empty name and at least one genre, and gives the same
    verdict to two records that agree on [name] and [genres].  In the loop
    an answer of the detail fetch is appended and counted exactly when the
    gate returns [True] and the record to append can be built; in every
    other case the records and [quality_passed] stay as they were. *)
Theorem quality_gate_decides_admission (fields : list (string * json)) :
  (assess_data_quality (JObj fields) = Ok true
   <-> exists name genres k,
         Py.lookup "name" fields = Some name /\ Py.truthy name = true
         /\ Py.lookup "genres" fields = Some genres /\ Py.truthy genres = true
         /\ Py.len genres = Ok k)
  /\ (Py.lookup "genres" fields = Some (JArr []) ->
      assess_data_quality (JObj fields) = Ok false)
  /\ (Py.lookup "name" fields = None
      \/ Py.lookup "name" fields = Some JNull
      \/ Py.lookup "name" fields = Some (JStr "") ->
      assess_data_quality (JObj fields) = Ok false)
  /\ (forall name genre genres,
        Py.lookup "name" fields = Some (JStr name) ->
        name <> EmptyString ->
        Py.lookup "genres" fields = Some (JArr (genre :: genres)) ->
        assess_data_quality (JObj fields) = Ok true)
  /\ (forall fields',
        Py.lookup "name" fields' = Py.lookup "name" fields ->
        Py.lookup "genres" fields' = Py.lookup "genres" fields ->
        assess_data_quality (JObj fields') = assess_data_quality (JObj fields))
  /\ (forall world name s s1 s2 artist_basic id,
        search_artist world name (emit (Log (LogProcessing name)) s)
        = (Ok artist_basic, s1) ->
        Py.truthy artist_basic = true ->
        Py.get artist_basic "id" = Ok id ->
        get_artist_details world id s1 = (Ok (JObj fields), s2) ->
        collection (snd (run_body world name s))
        = match assess_data_quality (JObj fields),
                collected_record id (JObj fields) with
          | Ok true, Ok record =>
              (collected_artists s ++ [record],
               (quality_passed (stats s) + 1)%Z)
          | _, _ => collection s
          end).
Proof.
  split; [| split; [| split; [| split; [| split]]]].
  - rewrite assess_data_quality_gate. apply gate_true.
  - intro Hg. rewrite assess_data_quality_gate, Hg. unfold gate.
    destruct (Py.lookup "name" fields) as [n |]; [| reflexivity].
    destruct (Py.truthy n); reflexivity.
  - intros [Hn | [Hn | Hn]]; rewrite assess_data_quality_gate, Hn; reflexivity.
  - intros name genre genres Hn Hne Hg.
    rewrite assess_data_quality_gate, Hn, Hg. unfold gate. simpl.
    destruct (String.eqb name "") eqn:E; [| reflexivity].
    apply String.eqb_eq in E. contradiction.
  - intros fields' Hn Hg.
    rewrite !assess_data_quality_gate, Hn, Hg. reflexivity.
  - intros world name s s1 s2 artist_basic id Hs Hb Hid Hd.
    exact (run_body_admission world name s s1 s2 artist_basic id (JObj fields)
             Hs Hb Hid Hd).
Qed.

Lemma quality_gate_decides_admission_witness :
  assess_data_quality
    (JObj [("name", JStr "Nobody"); ("genres", JArr []);
           ("popularity", JNum 3)]%string) = Ok false
  /\ assess_data_quality
       (JObj [("genres", JArr [JStr "pop"]); ("popularity", JNum 3)]%string)
     = Ok false
  /\ assess_data_quality artist_body = Ok true
  /\ assess_data_quality
       (JObj [("genres", JArr [JStr "pop"]); ("followers", JNull);
              ("name", JStr "Taylor Swift")]%string)
     = assess_data_quality artist_body
  /\ exists record,
       collection (snd (run_body healthy_world "a" (fresh_agent ["a"%string] 1)))
       = ([record], 1%Z).
Proof.
  split; [| split; [| split; [| split]]].
  - apply (proj1 (proj2 (quality_gate_decides_admission _))). reflexivity.
  - apply (proj1 (proj2 (proj2 (quality_gate_decides_admission _)))).
    left. reflexivity.
  - apply (proj1 (proj2 (proj2 (proj2 (quality_gate_decides_admission _))))
             "Taylor Swift"%string (JStr "pop") []).
    + reflexivity.
    + discriminate.
    + reflexivity.
  - apply (proj1 (proj2 (proj2 (proj2 (proj2 (quality_gate_decides_admission _))))));
      reflexivity.
  - eexists.
    refine (eq_trans
              (proj2 (proj2 (proj2 (proj2 (proj2
                 (quality_gate_decides_admission
                    [("name", JStr "Taylor Swift");
                     ("genres", JArr [JStr "pop"]);
                     ("popularity", JNum 100)]%string)))))
                 healthy_world "a"%string (fresh_agent ["a"%string] 1)
                 (snd (search_artist healthy_world "a"
                         (emit (Log (LogProcessing "a"))
                            (fresh_agent ["a"%string] 1))))
                 (snd (get_artist_details healthy_world
                         (JStr "06HL4z0CvFAxyc27GXpf02")
                         (snd (search_artist healthy_world "a"
                                 (emit (Log (LogProcessing "a"))
                                    (fresh_agent ["a"%string] 1))))))
                 (JObj [("id", JStr "06HL4z0CvFAxyc27GXpf02")]%string)
                 (JStr "06HL4z0CvFAxyc27GXpf02")
                 _ _ _ _) _).
    + vm_compute. reflexivity.
    + reflexivity.
    + reflexivity.
    + vm_compute. reflexivity.
    + reflexivity.
Defined.

(** C7 as stated fails: passing the gate is not all that decides
    whether a fetched record is kept.  A record with a name, one genre and
    [followers] set to [null] passes the gate, and the iteration that
    fetched it raises [AttributeError] while building the record to append:
    nothing is collected or counted. *)
Lemma quality_gate_counterexample :
  assess_data_quality
    (JObj [("name", JStr "A"); ("genres", JArr [JStr "pop"]);
           ("followers", JNull)]%string) = Ok true
  /\ http null_followers_world
       (ArtistRequest (JStr "06HL4z0CvFAxyc27GXpf02") (JStr "BQD")) 0%nat
     = Some (mkResponse true
               (Some (JObj [("name", JStr "A"); ("genres", JArr [JStr "pop"]);
                            ("followers", JNull)]%string)))
  /\ fst (run_body null_followers_world "a" (fresh_agent ["a"%string] 1))
     = Raise AttributeError
  /\ collection (snd (run_body null_followers_world "a" (fresh_agent ["a"%string] 1)))
     = ([], 0%Z).
Proof.
  repeat split; vm_compute; reflexivity.
Qed.

(** ** A failed token refresh *)

Section RefreshFailure.

Variable world : Oracle.

Lemma run_loop_app (before after : list string) (s : Agent)
    (bs : list Branch) (s1 : Agent) :
  run_loop world before s = (Ok bs, s1) ->
  run_loop world (before ++ after) s
  = match run_loop world after s1 with
    | (Ok bs', s2) => (Ok (bs ++ bs'), s2)
    | (Raise e, s2) => (Raise e, s2)
    end.
Proof.
  revert s bs. induction before as [| name before IH]; intros s bs; simpl.
  - unfold ret. intro H; injection H as <- <-.
    destruct (run_loop world after s) as [[bs' | e] s2]; reflexivity.
  - unfold bind at 1 3.
    destruct (run_body world name s) as [[b | e] s0]; [| discriminate].
    unfold bind at 1 2.
    destruct (run_loop world before s0) as [[bs0 | e] s0'] eqn:Hl; [| discriminate].
    unfold ret. intro H; injection H as <- <-.
    rewrite (IH s0 bs0 Hl).
    destruct (run_loop world after s0') as [[bs' | e] s2]; reflexivity.
Qed.

Lemma refresh_failure_aborts_iteration (name : string) (s : Agent) (e : exn)
    (s2 : Agent) :
  refresh_fails world name s e s2 ->
  run_body world name s = (Raise e, s2).
Proof.
  intros [Hsearch | basic id s1 Hsearch Hb Hid Hdetails].
  - unfold run_body, bind at 1, log, modify.
    unfold bind at 1. unfold search_artist, bind at 1.
    rewrite Hsearch. reflexivity.
  - unfold run_body, bind at 1, log, modify.
    unfold bind at 1. rewrite Hsearch, Hb. simpl.
    unfold bind at 1, lift. rewrite Hid.
    unfold bind at 1. unfold get_artist_details, bind at 1.
    rewrite Hdetails. reflexivity.
Qed.

Lemma run_from_loop (s : Agent) (name : string) (names : list string) :
  artists_to_search (config s) = name :: names ->
  run world s
  = match run_loop world (name :: names) (at_loop_start s) with
    | (Ok bs, s') => (Ok bs, emit (Log LogComplete) s')
    | (Raise e, s') => (Raise e, s')
    end.
Proof.
  intro Hnames.
  unfold run, bind, log, modify, gets, ret, at_loop_start; simpl.
  rewrite Hnames.
  set (s1 := emit (Log (LogConfigKeys (config s)))
               (emit (Log (LogAccessToken (token s))) (emit (Log LogStarted) s))).
  change ((branch <- run_body world name;;
           branches <- run_loop world names;; ret (branch :: branches)) s1)
    with (run_loop world (name :: names) s1).
  destruct (run_loop world (name :: names) s1) as [[bs | e] s']; reflexivity.
Qed.

End RefreshFailure.

(** C6 (amended): when a token refresh fails before the search or the detail
    fetch of an entity, the iteration for that entity raises the refresh's
    error, the loop raises it without starting any later entity, and the
    error escapes [run], which ends in the state the failed refresh left. *)
Theorem failed_refresh_escapes_run (world : Oracle)
    (before : list string) (name : string) (rest : list string)
    (s : Agent) (bs : list Branch) (s1 : Agent) (e : exn) (s2 : Agent) :
  artists_to_search (config s) = before ++ name :: rest ->
  run_loop world before (at_loop_start s) = (Ok bs, s1) ->
  refresh_fails world name s1 e s2 ->
  run_body world name s1 = (Raise e, s2)
  /\ run_loop world (before ++ name :: rest) (at_loop_start s) = (Raise e, s2)
  /\ run world s = (Raise e, s2).
Proof.
  intros Hnames Hbefore Hfail.
  pose proof (refresh_failure_aborts_iteration world name s1 e s2 Hfail) as Hbody.
  assert (Hloop : run_loop world (before ++ name :: rest) (at_loop_start s)
                  = (Raise e, s2)).
  { rewrite (run_loop_app world before (name :: rest) _ bs s1 Hbefore).
    simpl. unfold bind at 1. rewrite Hbody. reflexivity. }
  split; [exact Hbody|]. split; [exact Hloop|].
  destruct (before ++ name :: rest) as [| first others] eqn:Hlist.
  - destruct before; discriminate.
  - rewrite (run_from_loop world s first others Hnames), Hloop. reflexivity.
Qed.

Lemma failed_refresh_escapes_run_witness :
  run_body no_auth_world "a" (at_loop_start (fresh_agent ["a"; "b"]%string 1))
  = (Raise ConnectionError,
     snd (run no_auth_world (fresh_agent ["a"; "b"]%string 1)))
  /\ run_loop no_auth_world ([] ++ "a"%string :: ["b"%string])
       (at_loop_start (fresh_agent ["a"; "b"]%string 1))
     = (Raise ConnectionError,
        snd (run no_auth_world (fresh_agent ["a"; "b"]%string 1)))
  /\ run no_auth_world (fresh_agent ["a"; "b"]%string 1)
     = (Raise ConnectionError,
        snd (run no_auth_world (fresh_agent ["a"; "b"]%string 1))).
Proof.
  apply (failed_refresh_escapes_run no_auth_world [] "a"%string ["b"%string]
           (fresh_agent ["a"; "b"]%string 1) []
           (at_loop_start (fresh_agent ["a"; "b"]%string 1))).
  - reflexivity.
  - reflexivity.
  - apply refresh_fails_in_search. vm_compute. reflexivity.
Defined.

(** C6 as stated fails: with the token endpoint unreachable and two names
    configured, the refresh before the first search raises, [run] raises the
    same error, and the second name is never processed. *)
Lemma failed_refresh_counterexample :
  exists s',
    run no_auth_world (fresh_agent ["a"; "b"]%string 1) = (Raise ConnectionError, s')
    /\ fst (get_access_token no_auth_world
              (emit (Log (LogProcessing "a"))
                 (at_loop_start (fresh_agent ["a"; "b"]%string 1))))
       = Raise ConnectionError
    /\ ~ In (Log (LogProcessing "b")) (trace s')
    /\ ~ In (Log LogComplete) (trace s').
Proof.
  eexists. split; [vm_compute; reflexivity|].
  split; [reflexivity|].
  split; intro Hin; simpl in Hin;
    repeat (destruct Hin as [Heq | Hin]; [discriminate Heq|]); exact Hin.
Qed.

(** ** A run in which every request succeeds *)

Lemma assess_data_quality_truthy (d : json) :
  assess_data_quality d = Ok true -> Py.truthy d = true.
Proof.
  unfold assess_data_quality.
  destruct (Py.truthy d); [reflexivity | discriminate].
Qed.

Lemma ensure_token_valid_books (world : Oracle) :
  respects (unchanged books) (ensure_token_valid world).
Proof.
  unfold ensure_token_valid, get_access_token.
  respects_unchanged books; reflexivity.
Qed.

Section AllSucceed.

Variable world : Oracle.
Hypothesis Hworld : all_succeed world.

Lemma get_access_token_granted (s : Agent) :
  exists s',
    get_access_token world s = (Ok tt, s')
    /\ exists e, token_expiry s' = Some e.
Proof.
  destruct Hworld as [Htoken _].
  destruct (Htoken (tick s))
    as [data [tok [lifetime [Hhttp [Htok [Hlife Hrange]]]]]].
  unfold get_access_token, try_except, bind, requests_send, raise_for_status,
    response_json, lift, modify, now_timestamp, log, raise, ret.
  rewrite Hhttp; simpl. rewrite Htok; simpl. rewrite Hlife; simpl.
  rewrite Hrange; simpl.
  eexists. split; [reflexivity|]. simpl. eauto.
Qed.

Lemma ensure_token_valid_granted (s : Agent) :
  token_usable s ->
  exists s',
    ensure_token_valid world s = (Ok tt, s')
    /\ token_usable s' /\ books s' = books s.
Proof.
  intro Husable.
  pose proof (ensure_token_valid_books world s) as Hb. unfold unchanged in Hb.
  rewrite ensure_token_valid_cases in *.
  assert (Hrefresh : forall s0,
             books (snd (get_access_token world s0)) = books s ->
             exists s', get_access_token world s0 = (Ok tt, s')
                        /\ token_usable s' /\ books s' = books s).
  { intros s0 Hb0. destruct (get_access_token_granted s0) as [s' [Hget He]].
    exists s'. rewrite Hget in Hb0.
    split; [exact Hget|]. split; [right; exact He | exact Hb0]. }
  destruct (is_none (token s)) eqn:Et.
  - apply Hrefresh. exact Hb.
  - apply is_none_false in Et.
    destruct Husable as [Hnone | [e He]]; [congruence|].
    rewrite He in *.
    destruct (Py.Qlt_bool (e - 60) (clock world (tick s))) eqn:Hlt.
    + apply Hrefresh. exact Hb.
    + exists (next_tick s).
      split; [reflexivity|]. split; [right; exists e; exact He | reflexivity].
Qed.

Lemma search_artist_hit (name : string) (s : Agent) :
  token_usable s ->
  exists item id s',
    search_artist world name s = (Ok item, s')
    /\ Py.truthy item = true
    /\ Py.get item "id" = Ok id
    /\ token_usable s'
    /\ config s' = config s /\ delay s' = delay s
    /\ collected_artists s' = collected_artists s
    /\ stats s' = incr_successful (incr_total (stats s)).
Proof.
  intro Husable.
  destruct (ensure_token_valid_granted s Husable) as [s1 [Hensure [Hus1 Hb1]]].
  destruct Hworld as [_ [Hsearch _]].
  destruct (Hsearch name (token s1) (tick s1))
    as [data [artists [item [rest [id [Hhttp [Hartists [Hitems [Hitem Hid]]]]]]]]].
  unfold books in Hb1. injection Hb1 as Hc Hd Hl Hst.
  exists item, id. eexists.
  split.
  { unfold search_artist, bind at 1. rewrite Hensure.
    unfold bind, gets, try_except, requests_send, raise_for_status,
      response_json, lift, bump, modify, ret. simpl.
    rewrite Hhttp; simpl. rewrite Hartists; simpl. rewrite Hitems; simpl.
    reflexivity. }
  simpl. rewrite Hc, Hd, Hl, Hst.
  repeat split; try assumption; try reflexivity.
Qed.

Lemma get_artist_details_pass (id : json) (s : Agent) :
  token_usable s ->
  exists details record s',
    get_artist_details world id s = (Ok details, s')
    /\ assess_data_quality details = Ok true
    /\ collected_record id details = Ok record
    /\ token_usable s'
    /\ config s' = config s /\ delay s' = delay s
    /\ collected_artists s' = collected_artists s
    /\ stats s' = incr_successful (incr_total (stats s)).
Proof.
  intro Husable.
  destruct (ensure_token_valid_granted s Husable) as [s1 [Hensure [Hus1 Hb1]]].
  destruct Hworld as [_ [_ Hdetails]].
  destruct (Hdetails id (token s1) (tick s1)) as [d [Hhttp [Hq Hrec]]].
  destruct (Hrec id) as [record Hrecord].
  unfold books in Hb1. injection Hb1 as Hc Hd Hl Hst.
  exists d, record. eexists.
  split.
  { unfold get_artist_details, bind at 1. rewrite Hensure.
    unfold bind, gets, try_except, requests_send, raise_for_status,
      response_json, lift, bump, modify, ret. simpl.
    rewrite Hhttp; simpl. reflexivity. }
  simpl. rewrite Hc, Hd, Hl, Hst.
  repeat split; try assumption; try reflexivity.
Qed.

(** With the delay at a floor that is not negative, [respectful_delay]
    sleeps and changes nothing. *)
Lemma respectful_delay_at_floor (s : Agent) :
  delay s = configured_min_delay (config s) ->
  (0 <= delay s)%Q ->
  exists s',
    respectful_delay world s = (Ok tt, s')
    /\ books s' = books s
    /\ token s' = token s /\ token_expiry s' = token_expiry s.
Proof.
  intros Hfloor Hpos.
  unfold respectful_delay, bind, gets, modify, log, sleep, raise, lift,
    random_uniform, ret; simpl.
  assert (Hsleep : Py.Qlt_bool (delay s * jitter_value (uniform world (tick s))) 0
                   = false).
  { apply Qlt_bool_false. apply Qmult_le_0_compat; [exact Hpos|].
    apply Qlt_le_weak, jitter_positive. }
  rewrite Hsleep; simpl.
  assert (Hdecay : Py.Qlt_bool (configured_min_delay (config s)) (delay s) = false).
  { apply Qlt_bool_false. rewrite Hfloor. apply Qle_refl. }
  rewrite Hdecay.
  eexists. split; [reflexivity|]. repeat split.
Qed.

Lemma run_body_collects (name : string) (s : Agent) :
  ready s ->
  exists record s',
    run_body world name s = (Ok Collected, s')
    /\ ready s'
    /\ config s' = config s
    /\ collected_artists s' = collected_artists s ++ [record]
    /\ stats s' = one_collected (stats s).
Proof.
  intros [Husable [Hfloor Hpos]].
  destruct (search_artist_hit name (emit (Log (LogProcessing name)) s) Husable)
    as [item [id [s1 [Hsearch [Hitem [Hid [Hus1 [Hc1 [Hd1 [Hl1 Hst1]]]]]]]]]].
  destruct (get_artist_details_pass id s1 Hus1)
    as [details [record [s2 [Hdetails [Hq [Hrec [Hus2 [Hc2 [Hd2 [Hl2 Hst2]]]]]]]]]].
  simpl in Hc1, Hd1, Hl1, Hst1.
  destruct (respectful_delay_at_floor (collect record name s2))
    as [s3 [Hdelay [Hb3 [Ht3 He3]]]].
  { simpl. congruence. }
  { simpl. rewrite Hd2, Hd1. exact Hpos. }
  unfold books in Hb3. simpl in Hb3. injection Hb3 as Hc3 Hd3 Hl3 Hst3.
  exists record, s3.
  split.
  { apply run_body_iteration.
    eapply iteration_collected; try eassumption.
    apply assess_data_quality_truthy; exact Hq. }
  split.
  { unfold ready, token_usable. rewrite Ht3, He3, Hd3, Hc3. simpl.
    split; [exact Hus2|]. split; [congruence | rewrite Hd2, Hd1; exact Hpos]. }
  split; [congruence|].
  split; [rewrite Hl3, Hl2, Hl1; reflexivity|].
  rewrite Hst3, Hst2, Hst1.
  unfold one_collected, incr_quality_passed, incr_successful, incr_total; simpl.
  f_equal; lia.
Qed.

Lemma run_loop_collects (names : list string) (s : Agent) :
  ready s ->
  exists s',
    run_loop world names s = (Ok (repeat Collected (List.length names)), s')
    /\ List.length (collected_artists s')
       = (List.length (collected_artists s) + List.length names)%nat
    /\ total_requests (stats s')
       = (total_requests (stats s) + 2 * Z.of_nat (List.length names))%Z
    /\ successful_requests (stats s')
       = (successful_requests (stats s) + 2 * Z.of_nat (List.length names))%Z
    /\ failed_requests (stats s') = failed_requests (stats s)
    /\ quality_passed (stats s')
       = (quality_passed (stats s) + Z.of_nat (List.length names))%Z.
Proof.
  revert s. induction names as [| name rest IH]; intros s Hready.
  - exists s. simpl. unfold ret. repeat split; lia.
  - destruct (run_body_collects name s Hready)
      as [record [s1 [Hbody [Hready1 [Hc [Hl Hst]]]]]].
    destruct (IH s1 Hready1) as [s2 [Hloop [Hlen [Htot [Hsucc [Hfail Hq]]]]]].
    exists s2. split.
    { simpl. unfold bind. rewrite Hbody, Hloop. reflexivity. }
    rewrite Hlen, Htot, Hsucc, Hfail, Hq, Hl, Hst, length_app.
    unfold one_collected. cbn [total_requests successful_requests
      failed_requests quality_passed List.length].
    repeat split; lia.
Qed.

End AllSucceed.

Lemma healthy_world_all_succeed : all_succeed healthy_world.
Proof.
  split; [| split].
  - intro n. exists token_body, (JStr "BQD"), 3600%Q. repeat split.
  - intros q bearer n.
    exists search_body,
      (JObj [("items", JArr [JObj [("id", JStr "06HL4z0CvFAxyc27GXpf02")]])]%string),
      (JObj [("id", JStr "06HL4z0CvFAxyc27GXpf02")]%string), [],
      (JStr "06HL4z0CvFAxyc27GXpf02").
    repeat split.
  - intros id bearer n. exists artist_body.
    split; [reflexivity|]. split; [reflexivity|].
    intro id'. eexists. reflexivity.
Qed.




(** ** Request statistics *)

(** C1 (the code departs from it): a search answered 200 with no item is
    counted in [successful_requests] and then in [failed_requests], and a
    search that raises before any answer is counted in [failed_requests] but
    not in [total_requests]; after either, total differs from successful
    plus failed. *)
Theorem search_counts_do_not_partition :
  (exists s',
     search_artist no_match_world "a" (fresh_agent ["a"%string] 1) = (Ok JNull, s')
     /\ stats s' = mkStats 1 1 1 0
     /\ ~ stats_partition (stats s'))
  /\ (exists s',
        search_artist search_down_world "a" (fresh_agent ["a"%string] 1)
        = (Ok JNull, s')
        /\ stats s' = mkStats 0 0 1 0
        /\ ~ stats_partition (stats s')).
Proof.
  split; eexists; (split; [vm_compute; reflexivity|]);
    (split; [reflexivity | unfold stats_partition; simpl; lia]).
Qed.

(** What the counters do satisfy. *)

Section Bracket.

Variable world : Oracle.

Lemma adapt_delay_stats (s : Agent) : stats (snd (adapt_delay s)) = stats s.
Proof.
  unfold adapt_delay, bind, gets, modify, log, sleep, raise; simpl.
  destruct (Py.Qlt_bool _ 0); reflexivity.
Qed.

Lemma ensure_token_valid_stats (s : Agent) :
  stats (snd (ensure_token_valid world s)) = stats s.
Proof.
  pose proof (ensure_token_valid_books world s) as H.
  unfold unchanged, books in H. congruence.
Qed.

Ltac counted_case :=
  unfold counted;
  first [ left; reflexivity
        | right; left; reflexivity
        | right; right; left; reflexivity
        | right; right; right; left; reflexivity
        | right; right; right; right; reflexivity ].

Ltac split_outcomes :=
  repeat (simpl;
          match goal with
          | |- context [http ?w ?r ?n] => destruct (http w r n) as [[[|] [?|]] |]
          | |- context [Py.get_default ?d ?k ?v] => destruct (Py.get_default d k v)
          | |- context [Py.truthy ?x] => destruct (Py.truthy x)
          | |- context [Py.index0 ?x] => destruct (Py.index0 x)
          | |- context [Py.Qlt_bool ?a ?b] => destruct (Py.Qlt_bool a b)
          end);
  simpl.

Lemma search_artist_counted (name : string) (s : Agent) :
  counted (stats s) (stats (snd (search_artist world name s))).
Proof.
  unfold search_artist, bind at 1.
  pose proof (ensure_token_valid_stats s) as He.
  destruct (ensure_token_valid world s) as [[[] | e] s1]; simpl in He;
    [| left; exact He].
  rewrite <- He. clear He s.
  unfold adapt_delay, sleep.
  unfold bind, gets, try_except, requests_send, raise_for_status,
    response_json, lift, bump, modify, log, ret, raise.
  split_outcomes; counted_case.
Qed.

Lemma get_artist_details_counted (id : json) (s : Agent) :
  counted (stats s) (stats (snd (get_artist_details world id s))).
Proof.
  unfold get_artist_details, bind at 1.
  pose proof (ensure_token_valid_stats s) as He.
  destruct (ensure_token_valid world s) as [[[] | e] s1]; simpl in He;
    [| left; exact He].
  rewrite <- He. clear He s.
  unfold adapt_delay, sleep.
  unfold bind, gets, try_except, requests_send, raise_for_status,
    response_json, lift, bump, modify, log, ret, raise.
  split_outcomes; counted_case.
Qed.

Lemma counted_bracket (st st' : Stats) :
  counted st st' -> stats_bracket st -> stats_bracket st'.
Proof.
  unfold stats_bracket.
  intros [-> | [-> | [-> | [-> | ->]]]] [H1 H2]; simpl; lia.
Qed.

Lemma search_artist_keeps_bracket (name : string) :
  respects (keeps bracketed) (search_artist world name).
Proof.
  intros s H. apply (counted_bracket _ _ (search_artist_counted name s) H).
Qed.

Lemma get_artist_details_keeps_bracket (id : json) :
  respects (keeps bracketed) (get_artist_details world id).
Proof.
  intros s H. apply (counted_bracket _ _ (get_artist_details_counted id s) H).
Qed.

Ltac keeps_bracket :=
  repeat first
    [ apply search_artist_keeps_bracket
    | apply get_artist_details_keeps_bracket
    | respects_step (keeps_refl bracketed) (keeps_trans bracketed) ];
  try (unfold keeps, bracketed, stats_bracket; simpl; intro; lia).

Lemma run_body_keeps_bracket (name : string) :
  respects (keeps bracketed) (run_body world name).
Proof. unfold run_body, respectful_delay. keeps_bracket. Qed.

Lemma run_loop_keeps_bracket (names : list string) :
  respects (keeps bracketed) (run_loop world names).
Proof.
  induction names as [| name rest IH]; simpl.
  - apply (respects_ret _ (keeps_refl _)).
  - apply (respects_bind _ (keeps_trans _)); [apply run_body_keeps_bracket|].
    intro b.
    apply (respects_bind _ (keeps_trans _)); [exact IH|].
    intro bs. apply (respects_ret _ (keeps_refl _)).
Qed.

(** Whatever the answers, from the agent [__init__] builds a run keeps
    [successful <= total <= successful + failed]. *)
Lemma run_keeps_bracket (c : Config) (s0 : Agent) :
  init c = Ok s0 -> bracketed (snd (run world s0)).
Proof.
  unfold init.
  destruct (negb (present (client_id c)) || negb (present (client_secret c)))%bool;
    [discriminate|].
  intro H; injection H as <-.
  assert (Hrun : respects (keeps bracketed) (run world)).
  { unfold run.
    repeat first
      [ apply run_loop_keeps_bracket
      | respects_step (keeps_refl bracketed) (keeps_trans bracketed) ];
    unfold keeps, bracketed; simpl; intro; assumption. }
  apply Hrun. unfold bracketed, stats_bracket; simpl. lia.
Qed.

End Bracket.

(** * Further properties of the agent *)

(** ** Token Manager: what a refresh does *)

Lemma get_access_token_books (world : Oracle) :
  respects (unchanged books) (get_access_token world).
Proof.
  unfold get_access_token. respects_unchanged books; reflexivity.
Qed.

(** A granted token: on a 200 answer whose body holds [access_token] and a
    numeric [expires_in] that converts to a float, [get_access_token]
    returns, stores the token and the expiry [now + expires_in] with [now]
    read after the answer, and has sent one request; configuration, delay,
    records and statistics are untouched. *)
Theorem get_access_token_granted_stores (world : Oracle) (s : Agent)
    (data tok : json) (lifetime : Q) :
  http world TokenRequest (tick s) = Some (mkResponse true (Some data)) ->
  Py.subscript data "access_token" = Ok tok ->
  Py.subscript data "expires_in" = Ok (JNum lifetime) ->
  Py.in_float_range lifetime = true ->
  exists s',
    get_access_token world s = (Ok tt, s')
    /\ token s' = tok
    /\ token_expiry s' = Some (clock world (S (tick s)) + lifetime)%Q
    /\ books s' = books s
    /\ calls_made s' = S (calls_made s).
Proof.
  intros Hhttp Htok Hlife Hrange.
  pose proof (get_access_token_books world s) as Hbooks.
  pose proof (get_access_token_one_call world s) as Hcalls.
  unfold get_access_token, try_except, bind, requests_send, raise_for_status,
    response_json, lift, modify, now_timestamp, log, raise, ret in *.
  rewrite Hhttp in *; simpl in *. rewrite Htok in *; simpl in *.
  rewrite Hlife in *; simpl in *. rewrite Hrange in *; simpl in *.
  eexists. split; [reflexivity|]. simpl.
  repeat split; assumption.
Qed.

Lemma get_access_token_granted_stores_witness :
  exists s',
    get_access_token healthy_world (fresh_agent [] 1) = (Ok tt, s')
    /\ token s' = JStr "BQD"
    /\ token_expiry s'
       = Some (clock healthy_world (S (tick (fresh_agent [] 1))) + 3600)%Q
    /\ books s' = books (fresh_agent [] 1)
    /\ calls_made s' = S (calls_made (fresh_agent [] 1)).
Proof.
  apply (get_access_token_granted_stores healthy_world (fresh_agent [] 1)
           token_body (JStr "BQD") 3600); reflexivity.
Defined.

(** An [expires_in] that is an int too large for a float: the token has
    been stored when the addition fails, and the refresh raises
    [OverflowError] with the expiry the agent had. *)
Lemma get_access_token_lifetime_overflow (world : Oracle) (s : Agent)
    (data tok : json) (lifetime : Q) :
  http world TokenRequest (tick s) = Some (mkResponse true (Some data)) ->
  Py.subscript data "access_token" = Ok tok ->
  Py.subscript data "expires_in" = Ok (JNum lifetime) ->
  Py.in_float_range lifetime = false ->
  exists s',
    get_access_token world s = (Raise OverflowError, s')
    /\ token s' = tok
    /\ token_expiry s' = token_expiry s.
Proof.
  intros Hhttp Htok Hlife Hrange.
  unfold get_access_token, try_except, bind, requests_send, raise_for_status,
    response_json, lift, modify, now_timestamp, log, raise, ret.
  rewrite Hhttp; simpl. rewrite Htok; simpl. rewrite Hlife; simpl.
  rewrite Hrange; simpl.
  eexists. split; [reflexivity|]. split; reflexivity.
Qed.

(** A refused token: when the request raises, the status is not 2xx, the
    body is not JSON or [access_token] cannot be read, [get_access_token]
    raises that very error, and token and expiry are as before. *)
Theorem get_access_token_reraises (world : Oracle) (s : Agent) (e : exn) :
  match http world TokenRequest (tick s) with
  | None => e = ConnectionError
  | Some response =>
      if status_ok response then
        match json_body response with
        | None => e = JSONDecodeError
        | Some data => Py.subscript data "access_token" = Raise e
        end
      else e = HTTPError
  end ->
  exists s',
    get_access_token world s = (Raise e, s')
    /\ token s' = token s
    /\ token_expiry s' = token_expiry s
    /\ In (Log (LogTokenFailed e)) (trace s').
Proof.
  unfold get_access_token, try_except, bind, requests_send, raise_for_status,
    response_json, lift, modify, now_timestamp, log, raise, ret.
  destruct (http world TokenRequest (tick s)) as [[ok body] |]; simpl.
  - destruct ok; simpl.
    + destruct body as [data |]; simpl.
      * intro He. rewrite He. simpl. eexists. split; [reflexivity|]. simpl.
        repeat split. apply in_or_app. right. left. reflexivity.
      * intros ->. eexists. split; [reflexivity|]. simpl.
        repeat split. apply in_or_app. right. left. reflexivity.
    + intros ->. eexists. split; [reflexivity|]. simpl.
      repeat split. apply in_or_app. right. left. reflexivity.
  - intros ->. eexists. split; [reflexivity|]. simpl.
    repeat split. apply in_or_app. right. left. reflexivity.
Qed.

Lemma get_access_token_reraises_witness :
  exists s',
    get_access_token no_auth_world agent_with_token = (Raise ConnectionError, s')
    /\ token s' = token agent_with_token
    /\ token_expiry s' = token_expiry agent_with_token
    /\ In (Log (LogTokenFailed ConnectionError)) (trace s').
Proof.
  apply (get_access_token_reraises no_auth_world agent_with_token ConnectionError).
  reflexivity.
Defined.


(** A token without an expiry: [ensure_token_valid] reads the clock, fails
    on [None - 60] with a [TypeError] and sends nothing; [search_artist] and
    [get_artist_details] fail the same way before their request. *)
Theorem token_without_expiry_raises (world : Oracle) (s : Agent) :
  token s <> JNull ->
  token_expiry s = None ->
  ensure_token_valid world s = (Raise TypeError, next_tick s)
  /\ (forall name, search_artist world name s = (Raise TypeError, next_tick s))
  /\ (forall id, get_artist_details world id s = (Raise TypeError, next_tick s)).
Proof.
  intros Htok Hexp.
  assert (He : ensure_token_valid world s = (Raise TypeError, next_tick s)).
  { rewrite ensure_token_valid_cases.
    apply is_none_false in Htok. rewrite Htok, Hexp. reflexivity. }
  split; [exact He|].
  split; intro x.
  - unfold search_artist, bind at 1. rewrite He. reflexivity.
  - unfold get_artist_details, bind at 1. rewrite He. reflexivity.
Qed.

Lemma token_without_expiry_raises_witness :
  ensure_token_valid healthy_world
    (snd (get_access_token partial_token_world (fresh_agent [] 1)))
  = (Raise TypeError,
     next_tick (snd (get_access_token partial_token_world (fresh_agent [] 1))))
  /\ (forall name,
        search_artist healthy_world name
          (snd (get_access_token partial_token_world (fresh_agent [] 1)))
        = (Raise TypeError,
           next_tick (snd (get_access_token partial_token_world (fresh_agent [] 1)))))
  /\ (forall id,
        get_artist_details healthy_world id
          (snd (get_access_token partial_token_world (fresh_agent [] 1)))
        = (Raise TypeError,
           next_tick (snd (get_access_token partial_token_world (fresh_agent [] 1))))).
Proof.
  apply (token_without_expiry_raises healthy_world
           (snd (get_access_token partial_token_world (fresh_agent [] 1)))).
  - vm_compute. discriminate.
  - reflexivity.
Defined.

(** ** The token a request carries *)

Lemma extends_refl (s : Agent) : extends s s.
Proof. exists []. rewrite app_nil_r. reflexivity. Qed.

Lemma extends_trans (a b c : Agent) : extends a b -> extends b c -> extends a c.
Proof.
  intros [r1 H1] [r2 H2]. exists (r1 ++ r2).
  rewrite H2, H1, app_assoc. reflexivity.
Qed.

Ltac respects_extends :=
  repeat respects_step extends_refl extends_trans;
  try (unfold extends; simpl;
       first [ eexists; reflexivity
             | exists []; rewrite app_nil_r; reflexivity ]).

(** The first thing a lookup does once the token is validated is to send its
    request, with the token [ensure_token_valid] left in the agent: after a
    refresh the request carries the new token. *)
Theorem lookup_carries_validated_token (world : Oracle) (s s1 : Agent) :
  ensure_token_valid world s = (Ok tt, s1) ->
  (forall name, exists rest,
      trace (snd (search_artist world name s))
      = trace s1 ++ Http (SearchRequest name (token s1)) :: rest)
  /\ (forall id, exists rest,
        trace (snd (get_artist_details world id s))
        = trace s1 ++ Http (ArtistRequest id (token s1)) :: rest).
Proof.
  intro Hensure. split; intro x.
  - unfold search_artist, bind at 1. rewrite Hensure.
    unfold bind at 1, gets. rewrite try_except_bind. unfold requests_send.
    destruct (http world (SearchRequest x (token s1)) (tick s1)) as [response |].
    + match goal with
      | |- context [snd (?m ?s2)] =>
          assert (H : respects extends m)
            by (unfold adapt_delay; respects_extends);
          destruct (H s2) as [rest Hrest]
      end.
      exists rest. rewrite Hrest. simpl. rewrite <- app_assoc. reflexivity.
    + match goal with
      | |- context [snd (?m ?s2)] =>
          assert (H : respects extends m)
            by (unfold adapt_delay; respects_extends);
          destruct (H s2) as [rest Hrest]
      end.
      exists rest. rewrite Hrest. simpl. rewrite <- app_assoc. reflexivity.
  - unfold get_artist_details, bind at 1. rewrite Hensure.
    unfold bind at 1, gets. rewrite try_except_bind. unfold requests_send.
    destruct (http world (ArtistRequest x (token s1)) (tick s1)) as [response |].
    + match goal with
      | |- context [snd (?m ?s2)] =>
          assert (H : respects extends m)
            by (unfold adapt_delay; respects_extends);
          destruct (H s2) as [rest Hrest]
      end.
      exists rest. rewrite Hrest. simpl. rewrite <- app_assoc. reflexivity.
    + match goal with
      | |- context [snd (?m ?s2)] =>
          assert (H : respects extends m)
            by (unfold adapt_delay; respects_extends);
          destruct (H s2) as [rest Hrest]
      end.
      exists rest. rewrite Hrest. simpl. rewrite <- app_assoc. reflexivity.
Qed.

Lemma lookup_carries_validated_token_witness :
  (forall name, exists rest,
      trace (snd (search_artist healthy_world name (fresh_agent [] 1)))
      = trace (snd (ensure_token_valid healthy_world (fresh_agent [] 1)))
        ++ Http (SearchRequest name (JStr "BQD")) :: rest)
  /\ (forall id, exists rest,
        trace (snd (get_artist_details healthy_world id (fresh_agent [] 1)))
        = trace (snd (ensure_token_valid healthy_world (fresh_agent [] 1)))
          ++ Http (ArtistRequest id (JStr "BQD")) :: rest).
Proof.
  apply (lookup_carries_validated_token healthy_world (fresh_agent [] 1)
           (snd (ensure_token_valid healthy_world (fresh_agent [] 1)))).
  vm_compute. reflexivity.
Defined.

(** ** Rate Controller: pause, decay and their edges *)

(** From a delay that is not negative, [adapt_delay] returns: it stores
    the doubled delay capped at 10, logs it and sleeps for that new delay,
    not for the old one. *)
Theorem adapt_delay_pauses_for_new_delay (s : Agent) :
  (0 <= delay s)%Q ->
  let d' := Py.min (delay s * 2) 10 in
  adapt_delay s
  = (Ok tt, emit (Sleep d') (emit (Log (LogIncreasingDelay d')) (set_delay d' s)))
  /\ (0 <= d' <= 10)%Q.
Proof.
  intro Hpos. cbv zeta.
  assert (Hd : (0 <= Py.min (delay s * 2) 10 <= 10)%Q).
  { rewrite py_min_Qmin.
    destruct (Q.min_spec (delay s * 2) 10) as [[H ->] | [H ->]]; split; lra. }
  split; [| exact Hd].
  unfold adapt_delay, bind, gets, modify, log, sleep, raise; simpl.
  assert (E : Py.Qlt_bool (Py.min (delay s * 2) 10) 0 = false)
    by (apply Qlt_bool_false; apply Hd).
  rewrite E. reflexivity.
Qed.

Lemma adapt_delay_pauses_for_new_delay_witness :
  adapt_delay (fresh_agent [] 3)
  = (Ok tt,
     emit (Sleep (Py.min (3 * 2) 10))
       (emit (Log (LogIncreasingDelay (Py.min (3 * 2) 10)))
          (set_delay (Py.min (3 * 2) 10) (fresh_agent [] 3))))
  /\ (0 <= Py.min (delay (fresh_agent [] 3) * 2) 10 <= 10)%Q.
Proof.
  apply (adapt_delay_pauses_for_new_delay (fresh_agent [] 3)).
  vm_compute. discriminate.
Defined.

Lemma config_min_delay_missing (c : Config) (e : exn) :
  config_min_delay c = Raise e ->
  configured_min_delay c = 1%Q /\ exists k, e = KeyError k.
Proof.
  unfold config_min_delay, configured_min_delay.
  destruct (collection_settings c) as [cs |].
  - destruct (min_delay_seconds cs); [discriminate|].
    intro H; injection H as <-. split; [reflexivity | eauto].
  - intro H; injection H as <-. split; [reflexivity | eauto].
Qed.

Section Decay.

Variable world : Oracle.

Lemma respectful_delay_sleeps (s : Agent) :
  (0 <= delay s)%Q ->
  Py.Qlt_bool (delay s * jitter_value (uniform world (tick s))) 0 = false.
Proof.
  intro Hpos. apply Qlt_bool_false.
  apply Qmult_le_0_compat; [exact Hpos | apply Qlt_le_weak, jitter_positive].
Qed.

Lemma respectful_delay_not_above (s : Agent) :
  (0 <= delay s)%Q ->
  (0 <= delay (snd (respectful_delay world s)) <= delay s)%Q.
Proof.
  intro Hpos.
  destruct (respectful_delay_delay world s) as [-> | [Hgt ->]]; [split; lra|].
  rewrite py_max_Qmax.
  destruct (Q.max_spec (delay s * (9 # 10)) (configured_min_delay (config s)))
    as [[H ->] | [H ->]]; split; lra.
Qed.

End Decay.

(** [respectful_delay] never raises the delay: from a delay that is not
    negative, each call leaves a delay that is not negative and at most the
    one it found, whatever the configuration and whether the call returns or
    raises, so consecutive calls give a sequence that never increases. *)
Theorem respectful_delay_never_increases (world : Oracle) (s : Agent) (n : nat) :
  (0 <= delay s)%Q ->
  (0 <= delay (after_decays world (S n) s) <= delay (after_decays world n s))%Q
  /\ (delay (after_decays world n s) <= delay s)%Q.
Proof.
  intro Hpos.
  assert (H : (0 <= delay (after_decays world n s) <= delay s)%Q).
  { induction n as [| n [IH0 IH1]]; [simpl; split; lra|].
    change (after_decays world (S n) s)
      with (snd (respectful_delay world (after_decays world n s))).
    pose proof (respectful_delay_not_above world _ IH0) as [H0 H1].
    split; lra. }
  destruct H as [H0 H1]. split; [| exact H1].
  change (after_decays world (S n) s)
    with (snd (respectful_delay world (after_decays world n s))).
  apply respectful_delay_not_above. exact H0.
Qed.

Lemma respectful_delay_never_increases_witness :
  (0 <= delay (after_decays healthy_world 3 (snd (adapt_delay (fresh_agent [] 1))))
   <= delay (after_decays healthy_world 2 (snd (adapt_delay (fresh_agent [] 1)))))%Q
  /\ (delay (after_decays healthy_world 2 (snd (adapt_delay (fresh_agent [] 1))))
      <= delay (snd (adapt_delay (fresh_agent [] 1))))%Q.
Proof.
  apply (respectful_delay_never_increases healthy_world
           (snd (adapt_delay (fresh_agent [] 1))) 2).
  vm_compute. discriminate.
Defined.

(** Without [min_delay_seconds] in the configuration the floor read for the
    comparison is the default 1.0, but the decay itself subscripts the
    configuration: once the delay is above 1, [respectful_delay] sleeps and
    then raises [KeyError], leaving the delay as it was. *)
Theorem respectful_delay_missing_floor (world : Oracle) (s : Agent) (e : exn) :
  config_min_delay (config s) = Raise e ->
  (1 < delay s)%Q ->
  fst (respectful_delay world s) = Raise e
  /\ (exists k, e = KeyError k)
  /\ delay (snd (respectful_delay world s)) = delay s
  /\ exists x, In (Sleep x) (trace (snd (respectful_delay world s))).
Proof.
  intros Hcfg Hd.
  destruct (config_min_delay_missing _ _ Hcfg) as [Hfloor Hkey].
  unfold respectful_delay, bind, gets, modify, log, sleep, raise, lift,
    random_uniform, ret; simpl.
  rewrite respectful_delay_sleeps by lra. simpl.
  rewrite Hfloor, Hcfg.
  assert (E : Py.Qlt_bool 1 (delay s) = true) by (apply Qlt_bool_true; exact Hd).
  rewrite E. simpl.
  split; [reflexivity|]. split; [exact Hkey|]. split; [reflexivity|].
  eexists. apply in_or_app. right. left. reflexivity.
Qed.

Lemma respectful_delay_missing_floor_witness :
  fst (respectful_delay healthy_world
         (snd (adapt_delay
                 (mkAgent (mkConfig (Some "client"%string) (Some "secret"%string)
                                    [] None)
                          JNull None [] (mkStats 0 0 0 0) 1 0 []))))
  = Raise (KeyError "collection_settings").
Proof.
  apply (respectful_delay_missing_floor healthy_world
           (snd (adapt_delay
                   (mkAgent (mkConfig (Some "client"%string) (Some "secret"%string)
                                      [] None)
                            JNull None [] (mkStats 0 0 0 0) 1 0 [])))
           (KeyError "collection_settings")).
  - reflexivity.
  - reflexivity.
Defined.

(** With a delay between 0 and 10, [respectful_delay] sleeps once, for the
    delay it finds times the factor drawn, a length between 0 and 12 that
    it has logged just before; the decay comes after the sleep and does not
    shorten it. *)
Theorem respectful_delay_sleep_is_jittered (world : Oracle) (s : Agent) :
  (0 <= delay s <= 10)%Q ->
  let x := (delay s * jitter_value (uniform world (tick s)))%Q in
  trace (snd (respectful_delay world s))
  = trace s ++ [Log (LogSleeping x); Sleep x]
  /\ (0 <= x <= 12)%Q.
Proof.
  intros [Hpos Hten]. cbv zeta.
  unfold respectful_delay, bind, gets, modify, log, sleep, raise, lift,
    random_uniform, ret; simpl.
  rewrite respectful_delay_sleeps by exact Hpos. simpl.
  split.
  - destruct (Py.Qlt_bool _ (delay s)); simpl.
    + destruct (config_min_delay (config s)); simpl;
        rewrite <- app_assoc; reflexivity.
    + rewrite <- app_assoc; reflexivity.
  - destruct (uniform world (tick s)) as [j Hj]; simpl.
    apply andb_true_iff in Hj. destruct Hj as [Hlo Hhi].
    apply Qle_bool_iff in Hlo. apply Qle_bool_iff in Hhi.
    split; nra.
Qed.

Lemma respectful_delay_sleep_is_jittered_witness :
  trace (snd (respectful_delay healthy_world (fresh_agent [] 2)))
  = trace (fresh_agent [] 2)
    ++ [Log (LogSleeping
               (delay (fresh_agent [] 2)
                * jitter_value (uniform healthy_world (tick (fresh_agent [] 2)))));
        Sleep (delay (fresh_agent [] 2)
               * jitter_value (uniform healthy_world (tick (fresh_agent [] 2))))]
  /\ (0 <= delay (fresh_agent [] 2)
           * jitter_value (uniform healthy_world (tick (fresh_agent [] 2)))
      <= 12)%Q.
Proof.
  apply (respectful_delay_sleep_is_jittered healthy_world (fresh_agent [] 2)).
  split; vm_compute; discriminate.
Defined.

(** ** Statistics and records over a run *)

(** Through every operation the counters satisfy
    [successful <= total <= successful + failed]: they do at [__init__],
    and a search, a detail fetch, any number of iterations and the whole of
    [run] keep it, whatever they return or raise. *)
Theorem counters_stay_bracketed (world : Oracle) :
  (forall c s0, init c = Ok s0 -> bracketed s0 /\ bracketed (snd (run world s0)))
  /\ (forall s,
        bracketed s ->
        (forall name, bracketed (snd (search_artist world name s)))
        /\ (forall id, bracketed (snd (get_artist_details world id s)))
        /\ (forall names, bracketed (snd (run_loop world names s)))).
Proof.
  split.
  - intros c s0 Hinit. split; [| apply (run_keeps_bracket world c s0 Hinit)].
    unfold init in Hinit.
    destruct (negb (present (client_id c)) || negb (present (client_secret c)))%bool;
      [discriminate|].
    injection Hinit as <-. unfold bracketed, stats_bracket; simpl. lia.
  - intros s H. split; [| split]; intro x.
    + apply (search_artist_keeps_bracket world x s H).
    + apply (get_artist_details_keeps_bracket world x s H).
    + apply (run_loop_keeps_bracket world x s H).
Qed.

Lemma counters_stay_bracketed_witness :
  bracketed (fresh_agent ["a"; "b"]%string 1)
  /\ bracketed (snd (run no_match_world (fresh_agent ["a"; "b"]%string 1))).
Proof.
  apply (proj1 (counters_stay_bracketed no_match_world)
           (example_config ["a"; "b"]%string 1)).
  reflexivity.
Defined.

Lemma never_less_refl (s : Agent) : never_less s s.
Proof.
  unfold never_less. repeat split; try lia.
  exists []. rewrite app_nil_r. reflexivity.
Qed.

Lemma never_less_trans (a b c : Agent) :
  never_less a b -> never_less b c -> never_less a c.
Proof.
  unfold never_less.
  intros [H1 [H2 [H3 [H4 [n1 H5]]]]] [G1 [G2 [G3 [G4 [n2 G5]]]]].
  repeat split; try lia.
  exists (n1 ++ n2). rewrite G5, H5, app_assoc. reflexivity.
Qed.

Ltac never_less_steps :=
  repeat respects_step never_less_refl never_less_trans;
  try (unfold never_less; simpl; repeat split; try lia;
       first [ exists []; rewrite app_nil_r; reflexivity
             | eexists; reflexivity ]).

Lemma run_body_never_less (world : Oracle) (name : string) :
  respects never_less (run_body world name).
Proof.
  unfold run_body, search_artist, get_artist_details, respectful_delay,
    ensure_token_valid, get_access_token, adapt_delay.
  never_less_steps.
Qed.

Lemma run_loop_never_less (world : Oracle) (names : list string) :
  respects never_less (run_loop world names).
Proof.
  induction names as [| name rest IH]; simpl.
  - apply (respects_ret _ never_less_refl).
  - apply (respects_bind _ never_less_trans); [apply run_body_never_less|].
    intro b.
    apply (respects_bind _ never_less_trans); [exact IH|].
    intro bs. apply (respects_ret _ never_less_refl).
Qed.

(** No operation ever lowers a counter or drops, replaces or reorders a
    collected record: after a search, a detail fetch, any number of
    iterations or the whole of [run], each counter is at least what it was
    and the record list is the old list followed by new records. *)
Theorem counters_and_records_only_grow (world : Oracle) (s : Agent) :
  (forall name, never_less s (snd (search_artist world name s)))
  /\ (forall id, never_less s (snd (get_artist_details world id s)))
  /\ (forall names, never_less s (snd (run_loop world names s)))
  /\ never_less s (snd (run world s)).
Proof.
  split; [| split; [| split]]; try intro x.
  - revert s. change (respects never_less (search_artist world x)).
    unfold search_artist, ensure_token_valid, get_access_token, adapt_delay.
    never_less_steps.
  - revert s. change (respects never_less (get_artist_details world x)).
    unfold get_artist_details, ensure_token_valid, get_access_token, adapt_delay.
    never_less_steps.
  - apply run_loop_never_less.
  - revert s. change (respects never_less (run world)).
    unfold run.
    repeat first [ apply run_loop_never_less
                 | respects_step never_less_refl never_less_trans ];
    unfold never_less; simpl; repeat split; try lia;
      exists []; rewrite app_nil_r; reflexivity.
Qed.

(** ** Every collected record went through the gate *)

Lemma respects_bind_lift (R : Agent -> Agent -> Prop)
    (R_refl : forall s, R s s) {A B} (r : result A) (k : A -> M B) :
  (forall a, r = Ok a -> respects R (k a)) ->
  respects R (bind (lift r) k).
Proof.
  intros H s. unfold bind, lift.
  destruct r as [a | e]; [apply (H a eq_refl) | apply R_refl].
Qed.

Lemma gate_record (id d : json) (a : Artist) :
  assess_data_quality d = Ok true ->
  collected_record id d = Ok a ->
  through_gate a.
Proof.
  unfold assess_data_quality, collected_record, and_then, through_gate.
  destruct (Py.truthy d); simpl; [| discriminate].
  destruct (Py.get d "name") as [name | e]; [| discriminate].
  destruct (Py.truthy name) eqn:Hn; simpl; [| discriminate].
  destruct (Py.get d "genres") as [genres | e]; [| discriminate].
  destruct (Py.truthy genres) eqn:Hg; simpl; [| discriminate].
  intros _.
  destruct (Py.get_default d "external_urls" (JObj [])) as [urls | e];
    [| discriminate].
  destruct (Py.get urls "spotify"); [| discriminate].
  destruct (Py.get d "popularity"); [| discriminate].
  destruct (Py.get_default d "followers" (JObj [])) as [followers | e];
    [| discriminate].
  destruct (Py.get followers "total"); [| discriminate].
  intro H; injection H as <-. simpl. split; assumption.
Qed.

Lemma collect_keeps_gate (record : Artist) (name : string) :
  through_gate record ->
  respects (keeps all_through_gate)
    (modify (fun s => set_collected_artists (collected_artists s ++ [record]) s) ;;
     bump incr_quality_passed ;;
     log (LogCollected name) ;;
     ret Collected).
Proof.
  intros Hr s H. unfold all_through_gate in *. simpl.
  apply Forall_app. split; [exact H | constructor; [exact Hr | constructor]].
Qed.

Ltac keeps_gate :=
  repeat first
    [ match goal with
      | Hq : assess_data_quality ?d = Ok true,
        Hr : collected_record ?id ?d = Ok ?record
        |- respects _ (bind (modify _) _) =>
          apply (collect_keeps_gate record _ (gate_record id d record Hq Hr))
      | |- respects _ (bind (lift _) _) =>
          apply (respects_bind_lift _ (keeps_refl all_through_gate)); intros ? ?
      end
    | respects_step (keeps_refl all_through_gate) (keeps_trans all_through_gate) ];
  try (unfold keeps, all_through_gate; simpl; intro; assumption).

Lemma run_body_keeps_gate (world : Oracle) (name : string) :
  respects (keeps all_through_gate) (run_body world name).
Proof.
  unfold run_body, search_artist, get_artist_details, respectful_delay,
    ensure_token_valid, get_access_token, adapt_delay.
  keeps_gate.
Qed.

Lemma run_loop_keeps_gate (world : Oracle) (names : list string) :
  respects (keeps all_through_gate) (run_loop world names).
Proof.
  induction names as [| name rest IH]; simpl.
  - apply (respects_ret _ (keeps_refl _)).
  - apply (respects_bind _ (keeps_trans _)); [apply run_body_keeps_gate|].
    intro b.
    apply (respects_bind _ (keeps_trans _)); [exact IH|].
    intro bs. apply (respects_ret _ (keeps_refl _)).
Qed.

(** Every record [run] has collected has a truthy name and a truthy genre
    collection: the property holds of the empty list [__init__] builds, and
    every iteration, any number of them and the whole of [run] keep it,
    also when they raise. *)
Theorem collected_records_passed_gate (world : Oracle) :
  (forall c s0,
     init c = Ok s0 ->
     all_through_gate s0 /\ all_through_gate (snd (run world s0)))
  /\ (forall s,
        all_through_gate s ->
        (forall name, all_through_gate (snd (run_body world name s)))
        /\ (forall names, all_through_gate (snd (run_loop world names s)))).
Proof.
  assert (Hrun : respects (keeps all_through_gate) (run world)).
  { unfold run.
    repeat first
      [ apply run_loop_keeps_gate
      | respects_step (keeps_refl all_through_gate) (keeps_trans all_through_gate) ];
    unfold keeps, all_through_gate; simpl; intro; assumption. }
  split.
  - intros c s0 Hinit.
    assert (H0 : all_through_gate s0).
    { unfold init in Hinit.
      destruct (negb (present (client_id c)) || negb (present (client_secret c)))%bool;
        [discriminate|].
      injection Hinit as <-. constructor. }
    split; [exact H0 | apply (Hrun s0 H0)].
  - intros s H. split; intro x.
    + apply (run_body_keeps_gate world x s H).
    + apply (run_loop_keeps_gate world x s H).
Qed.

Lemma collected_records_passed_gate_witness :
  all_through_gate (fresh_agent ["a"; "b"]%string 1)
  /\ all_through_gate (snd (run healthy_world (fresh_agent ["a"; "b"]%string 1))).
Proof.
  apply (proj1 (collected_records_passed_gate healthy_world)
           (example_config ["a"; "b"]%string 1)).
  reflexivity.
Defined.

(** ** Names are processed in order *)

Lemma processed_app (t r : list Event) :
  processed (t ++ r) = processed t ++ processed r.
Proof.
  induction t as [| e t IH]; simpl; [reflexivity|].
  destruct e as [r0 | x | l]; try exact IH.
  destruct l; simpl; try exact IH. rewrite IH. reflexivity.
Qed.

Ltac same_processed :=
  respects_unchanged names_processed;
  try (unfold unchanged, names_processed; simpl;
       try rewrite processed_app; simpl;
       try rewrite app_nil_r; reflexivity).

Lemma bind_modify {B} (f : Agent -> Agent) (k : unit -> M B) (s : Agent) :
  bind (modify f) k s = k tt (f s).
Proof. reflexivity. Qed.

Lemma run_body_processes (world : Oracle) (name : string) (s : Agent) :
  names_processed (snd (run_body world name s)) = names_processed s ++ [name].
Proof.
  unfold run_body, log. rewrite bind_modify. cbv beta.
  match goal with
  | |- names_processed (snd (?m ?s1)) = _ =>
      assert (H : respects (unchanged names_processed) m)
        by (unfold search_artist, get_artist_details, respectful_delay,
              ensure_token_valid, get_access_token, adapt_delay;
            same_processed);
      rewrite (H s1)
  end.
  unfold names_processed; simpl. rewrite processed_app. reflexivity.
Qed.

Lemma run_loop_processes (world : Oracle) (names : list string) (s : Agent) :
  exists k,
    (k <= List.length names)%nat
    /\ names_processed (snd (run_loop world names s))
       = names_processed s ++ firstn k names
    /\ (forall bs, fst (run_loop world names s) = Ok bs -> k = List.length names).
Proof.
  revert s. induction names as [| name rest IH]; intro s.
  - exists 0%nat. simpl. rewrite app_nil_r. repeat split; auto.
  - assert (Heq : run_loop world (name :: rest) s
                  = match run_body world name s with
                    | (Ok b, s1) =>
                        match run_loop world rest s1 with
                        | (Ok bs, s2) => (Ok (b :: bs), s2)
                        | (Raise e, s2) => (Raise e, s2)
                        end
                    | (Raise e, s1) => (Raise e, s1)
                    end) by reflexivity.
    rewrite Heq. clear Heq.
    pose proof (run_body_processes world name s) as Hb.
    destruct (run_body world name s) as [[b | e] s1]; simpl in Hb.
    + destruct (IH s1) as [k [Hk [Hp Hok]]].
      exists (S k). split; [simpl; lia|].
      destruct (run_loop world rest s1) as [[bs | e] s2]; simpl in *.
      * split; [rewrite Hp, Hb, <- app_assoc; reflexivity|].
        intros bs' _. f_equal. apply (Hok bs). reflexivity.
      * split; [rewrite Hp, Hb, <- app_assoc; reflexivity|].
        intros bs' H. discriminate H.
    + exists 1%nat. split; [simpl; lia|]. simpl.
      split; [exact Hb|]. intros bs H. discriminate H.
Qed.

(** [run] takes the names in the order of the configuration, each at most
    once and none before its predecessors: whatever the outcome, the names
    it has started on are an initial segment of the list, and the whole
    list when the loop reaches its end. *)
Theorem names_processed_in_order (world : Oracle) (names : list string)
    (s : Agent) :
  exists k,
    (k <= List.length names)%nat
    /\ names_processed (snd (run_loop world names s))
       = names_processed s ++ firstn k names
    /\ (forall bs, fst (run_loop world names s) = Ok bs ->
                   names_processed (snd (run_loop world names s))
                   = names_processed s ++ names).
Proof.
  destruct (run_loop_processes world names s) as [k [Hk [Hp Hok]]].
  exists k. split; [exact Hk|]. split; [exact Hp|].
  intros bs H. rewrite Hp, (Hok bs H), firstn_all. reflexivity.
Qed.

(** ** The report *)

(** In the report written after a run the lines "Artists Passed Quality
    Check" and "Collected Artist Count" always show the same number,
    whatever the answers were. *)
Theorem report_counts_agree (world : Oracle) (c : Config) (s0 : Agent)
    (date : string) :
  init c = Ok s0 ->
  exists header date_line total success failed n,
    report_writes date (snd (run world s0))
    = [ header; date_line; total; success; failed;
        ("Artists Passed Quality Check: " ++ n ++ String "010" "")%string;
        ("Collected Artist Count: " ++ n ++ String "010" "")%string ]
    /\ n = str_int (quality_passed (stats (snd (run world s0)))).
Proof.
  intro Hinit.
  assert (H0 : collected_matches_counter s0).
  { unfold init in Hinit.
    destruct (negb (present (client_id c)) || negb (present (client_secret c)))%bool;
      [discriminate|].
    injection Hinit as <-. reflexivity. }
  pose proof (run_keeps_counter world s0 H0) as H.
  unfold collected_matches_counter in H.
  unfold report_writes. rewrite H.
  do 6 eexists. split; reflexivity.
Qed.

Lemma report_counts_agree_witness :
  exists header date_line total success failed n,
    report_writes "2025-01-01T00:00:00"
      (snd (run healthy_world (fresh_agent ["a"; "b"]%string 1)))
    = [ header; date_line; total; success; failed;
        ("Artists Passed Quality Check: " ++ n ++ String "010" "")%string;
        ("Collected Artist Count: " ++ n ++ String "010" "")%string ]
    /\ n = str_int (quality_passed
                     (stats (snd (run healthy_world
                                    (fresh_agent ["a"; "b"]%string 1))))).
Proof.
  apply (report_counts_agree healthy_world (example_config ["a"; "b"]%string 1)).
  reflexivity.
Defined.

(** ** No lookup is repeated *)

Lemma lookups_emit (e : Event) (t : list Event) :
  lookups (t ++ [e]) = (lookups t + (if is_lookup e then 1 else 0))%nat.
Proof.
  unfold lookups. rewrite filter_app, length_app. simpl.
  destruct (is_lookup e); reflexivity.
Qed.

Ltac count_lookups :=
  unfold unchanged, lookups_made; simpl;
  try rewrite lookups_emit; simpl; lia.

Section Budget.

Variable world : Oracle.

Lemma within_bind {A B} (a b : nat) (m : M A) (k : A -> M B) :
  respects (within a) m -> (forall x, respects (within b) (k x)) ->
  respects (within (a + b)) (bind m k).
Proof.
  intros Hm Hk s. unfold bind. specialize (Hm s).
  destruct (m s) as [[x | e] s1]; simpl in *.
  - specialize (Hk x s1). unfold within in *. lia.
  - unfold within in *. lia.
Qed.

Lemma within_weaken {A} (a b : nat) (m : M A) :
  (a <= b)%nat -> respects (within a) m -> respects (within b) m.
Proof. intros Hab Hm s. specialize (Hm s). unfold within in *. lia. Qed.

Lemma within_unchanged {A} (m : M A) :
  respects (unchanged lookups_made) m -> respects (within 0) m.
Proof. intros Hm s. specialize (Hm s). unfold within, unchanged in *. lia. Qed.

Lemma ensure_token_valid_no_lookup :
  respects (unchanged lookups_made) (ensure_token_valid world).
Proof.
  unfold ensure_token_valid, get_access_token.
  respects_unchanged lookups_made; count_lookups.
Qed.

Lemma respectful_delay_no_lookup :
  respects (unchanged lookups_made) (respectful_delay world).
Proof.
  unfold respectful_delay. respects_unchanged lookups_made; count_lookups.
Qed.

Lemma search_artist_one_lookup (name : string) :
  respects (within 1) (search_artist world name).
Proof.
  intro s. unfold within, search_artist, bind at 1.
  pose proof (ensure_token_valid_no_lookup s) as He. unfold unchanged in He.
  destruct (ensure_token_valid world s) as [[[] | e] s1]; simpl in He;
    [| simpl; lia].
  unfold bind at 1, gets. rewrite try_except_bind. unfold requests_send.
  destruct (http world (SearchRequest name (token s1)) (tick s1)) as [response |];
    match goal with
    | |- (lookups_made (snd (?m ?s2)) <= _)%nat =>
        assert (H : respects (unchanged lookups_made) m)
          by (unfold adapt_delay; respects_unchanged lookups_made; count_lookups);
        rewrite (H s2)
    end;
    unfold lookups_made in *; simpl; rewrite lookups_emit; simpl; lia.
Qed.

Lemma get_artist_details_one_lookup (id : json) :
  respects (within 1) (get_artist_details world id).
Proof.
  intro s. unfold within, get_artist_details, bind at 1.
  pose proof (ensure_token_valid_no_lookup s) as He. unfold unchanged in He.
  destruct (ensure_token_valid world s) as [[[] | e] s1]; simpl in He;
    [| simpl; lia].
  unfold bind at 1, gets. rewrite try_except_bind. unfold requests_send.
  destruct (http world (ArtistRequest id (token s1)) (tick s1)) as [response |];
    match goal with
    | |- (lookups_made (snd (?m ?s2)) <= _)%nat =>
        assert (H : respects (unchanged lookups_made) m)
          by (unfold adapt_delay; respects_unchanged lookups_made; count_lookups);
        rewrite (H s2)
    end;
    unfold lookups_made in *; simpl; rewrite lookups_emit; simpl; lia.
Qed.

Lemma run_body_two_lookups (name : string) :
  respects (within 2) (run_body world name).
Proof.
  unfold run_body.
  apply (within_bind 0 2).
  { apply within_unchanged. respects_unchanged lookups_made; count_lookups. }
  intros _.
  apply (within_bind 1 1); [apply search_artist_one_lookup|].
  intro artist_basic.
  destruct (negb (Py.truthy artist_basic)).
  { apply (within_weaken 0 1); [lia|]. apply within_unchanged.
    respects_unchanged lookups_made; count_lookups. }
  apply (within_bind 0 1).
  { apply within_unchanged. respects_unchanged lookups_made. }
  intro id.
  apply (within_bind 1 0); [apply get_artist_details_one_lookup|].
  intro artist_details.
  apply within_unchanged.
  unfold respectful_delay.
  respects_unchanged lookups_made; count_lookups.
Qed.

Lemma run_loop_lookups (names : list string) :
  respects (within (2 * List.length names)) (run_loop world names).
Proof.
  induction names as [| name rest IH]; simpl List.length.
  - apply within_unchanged. apply (respects_ret _ (unchanged_refl _)).
  - apply (within_weaken (2 + (2 * List.length rest + 0))); [lia|].
    simpl run_loop.
    apply within_bind; [apply run_body_two_lookups|].
    intro b. apply within_bind; [exact IH|].
    intro bs. apply within_unchanged. apply (respects_ret _ (unchanged_refl _)).
Qed.

End Budget.

(** A failed lookup is never sent again: [search_artist] and
    [get_artist_details] send at most one lookup each, an iteration at most
    two, and a loop over [n] names at most [2 * n], whatever the answers and
    whatever is raised. *)
Theorem at_most_two_lookups_per_name (world : Oracle) (s : Agent) :
  (forall name,
     (lookups_made (snd (search_artist world name s)) <= lookups_made s + 1)%nat)
  /\ (forall id,
        (lookups_made (snd (get_artist_details world id s))
         <= lookups_made s + 1)%nat)
  /\ (forall name,
        (lookups_made (snd (run_body world name s)) <= lookups_made s + 2)%nat)
  /\ (forall names,
        (lookups_made (snd (run_loop world names s))
         <= lookups_made s + 2 * List.length names)%nat).
Proof.
  split; [| split; [| split]]; intro x.
  - apply (search_artist_one_lookup world x s).
  - apply (get_artist_details_one_lookup world x s).
  - apply (run_body_two_lookups world x s).
  - apply (run_loop_lookups world x s).
Qed.

(** ** How a lookup ends *)

Section Lookups.

Variable world : Oracle.

Lemma ensure_token_valid_frame (s s1 : Agent) :
  ensure_token_valid world s = (Ok tt, s1) ->
  stats s1 = stats s /\ delay s1 = delay s.
Proof.
  intro H. pose proof (ensure_token_valid_books world s) as Hb.
  rewrite H in Hb. unfold unchanged, books in Hb. simpl in Hb.
  injection Hb as _ Hd _ Hs. split; assumption.
Qed.

Lemma backoff_sleeps (d : Q) :
  (0 <= d)%Q -> Py.Qlt_bool (Py.min (d * 2) 10) 0 = false.
Proof.
  intro H. apply Qlt_bool_false. rewrite py_min_Qmin.
  destruct (Q.min_spec (d * 2) 10) as [[_ ->] | [_ ->]]; lra.
Qed.

Ltac split_lookup E :=
  repeat (simpl;
          match goal with
          | |- context [http ?w ?r ?n] => destruct (http w r n) as [[[|] [?|]] |]
          | |- context [Py.get_default ?d ?k ?v] => destruct (Py.get_default d k v)
          | |- context [Py.truthy ?x] => destruct (Py.truthy x)
          | |- context [Py.index0 ?x] => destruct (Py.index0 x)
          | |- context [Py.Qlt_bool (Py.min _ _) 0] => rewrite E
          end);
  simpl.

Lemma search_artist_returns (name : string) (s s1 : Agent) :
  ensure_token_valid world s = (Ok tt, s1) ->
  (0 <= delay s)%Q ->
  exists v s', search_artist world name s = (Ok v, s').
Proof.
  intros Hensure Hpos.
  destruct (ensure_token_valid_frame s s1 Hensure) as [_ Hd].
  pose proof (backoff_sleeps (delay s1)) as E. rewrite Hd in E.
  specialize (E Hpos). rewrite <- Hd in E.
  unfold search_artist, bind at 1. rewrite Hensure.
  unfold adapt_delay, sleep.
  unfold bind, gets, try_except, requests_send, raise_for_status,
    response_json, lift, bump, modify, log, ret, raise.
  split_lookup E; eexists; eexists; reflexivity.
Qed.

Lemma get_artist_details_returns (id : json) (s s1 : Agent) :
  ensure_token_valid world s = (Ok tt, s1) ->
  (0 <= delay s)%Q ->
  exists v s', get_artist_details world id s = (Ok v, s').
Proof.
  intros Hensure Hpos.
  destruct (ensure_token_valid_frame s s1 Hensure) as [_ Hd].
  pose proof (backoff_sleeps (delay s1)) as E. rewrite Hd in E.
  specialize (E Hpos). rewrite <- Hd in E.
  unfold get_artist_details, bind at 1. rewrite Hensure.
  unfold adapt_delay, sleep.
  unfold bind, gets, try_except, requests_send, raise_for_status,
    response_json, lift, bump, modify, log, ret, raise.
  split_lookup E; eexists; eexists; reflexivity.
Qed.

(** A lookup that returns something truthy was counted once in
    [total_requests], once in [successful_requests], and left the delay
    alone. *)
Lemma search_artist_found (name : string) (s : Agent) (v : json) (s' : Agent) :
  search_artist world name s = (Ok v, s') ->
  Py.truthy v = true ->
  stats s' = incr_successful (incr_total (stats s)) /\ delay s' = delay s.
Proof.
  unfold search_artist, bind at 1.
  pose proof (ensure_token_valid_frame s) as Hf.
  destruct (ensure_token_valid world s) as [[[] | e] s1]; [| discriminate].
  destruct (Hf s1 eq_refl) as [Hs Hd]. rewrite <- Hs, <- Hd. clear Hf Hs Hd.
  revert v s'.
  unfold adapt_delay, sleep.
  unfold bind, gets, try_except, requests_send, raise_for_status,
    response_json, lift, bump, modify, log, ret, raise.
  repeat (simpl;
          match goal with
          | |- context [http ?w ?r ?n] => destruct (http w r n) as [[[|] [?|]] |]
          | |- context [Py.get_default ?d ?k ?x] => destruct (Py.get_default d k x)
          | |- context [Py.truthy ?x] =>
              lazymatch goal with
              | |- forall _ _, _ => destruct (Py.truthy x) eqn:?
              end
          | |- context [Py.index0 ?x] => destruct (Py.index0 x)
          | |- context [Py.Qlt_bool ?a ?b] => destruct (Py.Qlt_bool a b)
          end);
    simpl; intros v s' H Ht; try discriminate H; injection H as <- <-;
    try discriminate Ht; split; reflexivity.
Qed.

Lemma get_artist_details_found (id : json) (s : Agent) (v : json) (s' : Agent) :
  get_artist_details world id s = (Ok v, s') ->
  Py.truthy v = true ->
  stats s' = incr_successful (incr_total (stats s)) /\ delay s' = delay s.
Proof.
  unfold get_artist_details, bind at 1.
  pose proof (ensure_token_valid_frame s) as Hf.
  destruct (ensure_token_valid world s) as [[[] | e] s1]; [| discriminate].
  destruct (Hf s1 eq_refl) as [Hs Hd]. rewrite <- Hs, <- Hd. clear Hf Hs Hd.
  revert v s'.
  unfold adapt_delay, sleep.
  unfold bind, gets, try_except, requests_send, raise_for_status,
    response_json, lift, bump, modify, log, ret, raise.
  repeat (simpl;
          match goal with
          | |- context [http ?w ?r ?n] => destruct (http w r n) as [[[|] [?|]] |]
          | |- context [Py.Qlt_bool ?a ?b] => destruct (Py.Qlt_bool a b)
          end);
    simpl; intros v s' H Ht; try discriminate H; injection H as <- <-;
    try discriminate Ht; split; reflexivity.
Qed.

End Lookups.

(** Request errors never escape a lookup: once the token is validated and
    with a delay that is not negative, [search_artist] and
    [get_artist_details] return a value whatever the answer to their
    request is, a raised call, a non-2xx status or an unusable body
    included. *)
Theorem lookup_errors_are_absorbed (world : Oracle) (s s1 : Agent) :
  ensure_token_valid world s = (Ok tt, s1) ->
  (0 <= delay s)%Q ->
  (forall name, exists v s', search_artist world name s = (Ok v, s'))
  /\ (forall id, exists v s', get_artist_details world id s = (Ok v, s')).
Proof.
  intros Hensure Hpos. split; intro x.
  - apply (search_artist_returns world x s s1 Hensure Hpos).
  - apply (get_artist_details_returns world x s s1 Hensure Hpos).
Qed.

Lemma lookup_errors_are_absorbed_witness :
  (forall name, exists v s',
      search_artist search_down_world name (fresh_agent [] 1) = (Ok v, s'))
  /\ (forall id, exists v s',
        get_artist_details search_down_world id (fresh_agent [] 1) = (Ok v, s')).
Proof.
  apply (lookup_errors_are_absorbed search_down_world (fresh_agent [] 1)
           (snd (ensure_token_valid search_down_world (fresh_agent [] 1)))).
  - vm_compute. reflexivity.
  - vm_compute. discriminate.
Defined.

(** A search whose request raises, or is answered with a non-2xx status,
    returns [None], is counted as failed (and in [total_requests] only if
    there was an answer), doubles the delay up to 10 and sleeps that long
    before returning. *)
Theorem failed_search_backs_off (world : Oracle) (name : string)
    (s s1 : Agent) (st : Stats) :
  ensure_token_valid world s = (Ok tt, s1) ->
  (0 <= delay s)%Q ->
  match http world (SearchRequest name (token s1)) (tick s1) with
  | None => st = incr_failed (stats s)
  | Some response =>
      status_ok response = false /\ st = incr_failed (incr_total (stats s))
  end ->
  exists s',
    search_artist world name s = (Ok JNull, s')
    /\ stats s' = st
    /\ delay s' = Py.min (delay s * 2) 10
    /\ In (Sleep (Py.min (delay s * 2) 10)) (trace s').
Proof.
  intros Hensure Hpos.
  destruct (ensure_token_valid_frame world s s1 Hensure) as [Hs Hd].
  pose proof (backoff_sleeps (delay s1)) as E. rewrite Hd in E.
  specialize (E Hpos).
  unfold search_artist, bind at 1. rewrite Hensure.
  unfold adapt_delay, sleep.
  unfold bind, gets, try_except, requests_send, raise_for_status,
    response_json, lift, bump, modify, log, ret, raise.
  simpl.
  destruct (http world (SearchRequest name (token s1)) (tick s1))
    as [[ok body] |]; simpl.
  - intros [Hok ->]. simpl in Hok. subst ok. simpl.
    rewrite Hd, E, Hs. eexists. split; [reflexivity|]. simpl.
    repeat split. apply in_or_app. right. left. reflexivity.
  - intros ->. rewrite Hd, E, Hs. eexists. split; [reflexivity|]. simpl.
    repeat split. apply in_or_app. right. left. reflexivity.
Qed.

Lemma failed_search_backs_off_witness :
  exists s',
    search_artist search_down_world "a" (fresh_agent [] 1) = (Ok JNull, s')
    /\ stats s' = incr_failed (stats (fresh_agent [] 1))
    /\ delay s' = Py.min (delay (fresh_agent [] 1) * 2) 10
    /\ In (Sleep (Py.min (delay (fresh_agent [] 1) * 2) 10)) (trace s').
Proof.
  apply (failed_search_backs_off search_down_world "a" (fresh_agent [] 1)
           (snd (ensure_token_valid search_down_world (fresh_agent [] 1)))).
  - vm_compute. reflexivity.
  - vm_compute. discriminate.
  - reflexivity.
Defined.

(** A search answered 200 with no item returns [None] and is counted in all
    three request counters, but does not back off: the delay is unchanged
    and nothing sleeps. *)
Theorem empty_search_does_not_back_off (world : Oracle) (name : string)
    (s s1 : Agent) (data artists items : json) :
  ensure_token_valid world s = (Ok tt, s1) ->
  http world (SearchRequest name (token s1)) (tick s1)
  = Some (mkResponse true (Some data)) ->
  Py.get_default data "artists" (JObj []) = Ok artists ->
  Py.get_default artists "items" (JArr []) = Ok items ->
  Py.truthy items = false ->
  exists s',
    search_artist world name s = (Ok JNull, s')
    /\ stats s' = incr_failed (incr_successful (incr_total (stats s)))
    /\ delay s' = delay s
    /\ trace s'
       = trace s1 ++ [Http (SearchRequest name (token s1));
                      Log (LogNoArtistFound name)].
Proof.
  intros Hensure Hhttp Hartists Hitems Hempty.
  destruct (ensure_token_valid_frame world s s1 Hensure) as [Hs Hd].
  unfold search_artist, bind at 1. rewrite Hensure.
  unfold bind, gets, try_except, requests_send, raise_for_status,
    response_json, lift, bump, modify, log, ret, raise.
  simpl. rewrite Hhttp. simpl. rewrite Hartists. simpl. rewrite Hitems. simpl.
  rewrite Hempty. simpl.
  eexists. split; [reflexivity|]. simpl. rewrite Hs, Hd.
  repeat split. rewrite <- app_assoc. reflexivity.
Qed.

Lemma empty_search_does_not_back_off_witness :
  exists s',
    search_artist no_match_world "a" (fresh_agent [] 1) = (Ok JNull, s')
    /\ stats s'
       = incr_failed (incr_successful (incr_total (stats (fresh_agent [] 1))))
    /\ delay s' = delay (fresh_agent [] 1)
    /\ trace s'
       = trace (snd (ensure_token_valid no_match_world (fresh_agent [] 1)))
         ++ [Http (SearchRequest "a"
                     (token (snd (ensure_token_valid no_match_world
                                    (fresh_agent [] 1)))));
             Log (LogNoArtistFound "a")].
Proof.
  apply (empty_search_does_not_back_off no_match_world "a" (fresh_agent [] 1)
           (snd (ensure_token_valid no_match_world (fresh_agent [] 1)))
           empty_search_body
           (JObj [("items", JArr [])]%string) (JArr [])).
  - vm_compute. reflexivity.
  - reflexivity.
  - reflexivity.
  - reflexivity.
  - reflexivity.
Defined.

(** ** What a fetched record costs *)

Lemma respectful_delay_stats (world : Oracle) :
  respects (unchanged stats) (respectful_delay world).
Proof. unfold respectful_delay. respects_unchanged stats; reflexivity. Qed.

(** An iteration that reaches the quality check has been answered twice:
    it adds exactly two to [total_requests] and to [successful_requests],
    nothing to [failed_requests], and one to [quality_passed] exactly when
    the record is collected. *)
Theorem fetched_record_costs_two_requests (world : Oracle) (name : string)
    (s : Agent) (b : Branch) (s' : Agent) :
  run_body world name s = (Ok b, s') ->
  paced b = true ->
  total_requests (stats s') = (total_requests (stats s) + 2)%Z
  /\ successful_requests (stats s') = (successful_requests (stats s) + 2)%Z
  /\ failed_requests (stats s') = failed_requests (stats s)
  /\ quality_passed (stats s')
     = (quality_passed (stats s) + (if is_collected b then 1 else 0))%Z.
Proof.
  intros Hrun Hpaced. apply run_body_iteration in Hrun.
  destruct Hrun as [basic s1 Hs Hb
                   | basic id details s1 s2 Hs Hb Hid Hd Ht
                   | basic id details s1 s2 s3 Hs Hb Hid Hd Ht Hq Hr
                   | basic id details record s1 s2 s3 Hs Hb Hid Hd Ht Hq Hrec Hr];
    try discriminate Hpaced;
    destruct (search_artist_found world name _ _ _ Hs Hb) as [H1 _];
    destruct (get_artist_details_found world id _ _ _ Hd Ht) as [H2 _];
    match type of Hr with
    | respectful_delay world ?s0 = _ =>
        pose proof (respectful_delay_stats world s0) as H3
    end;
    rewrite Hr in H3; unfold unchanged in H3; simpl in H3;
    rewrite H3, H2, H1; simpl; repeat split; lia.
Qed.

Lemma fetched_record_costs_two_requests_witness :
  total_requests
    (stats (snd (run_body healthy_world "a" (fresh_agent ["a"%string] 1))))
  = (total_requests (stats (fresh_agent ["a"%string] 1)) + 2)%Z.
Proof.
  apply (fetched_record_costs_two_requests healthy_world "a"
           (fresh_agent ["a"%string] 1) Collected).
  - vm_compute. reflexivity.
  - reflexivity.
Defined.

(** A detail fetch whose request raises, is answered with a non-2xx status,
    or is answered 200 with a body that is not JSON, returns [None], is
    counted as failed on top of what was counted before the failure,
    doubles the delay up to 10 and sleeps that long before returning. *)
Theorem failed_details_backs_off (world : Oracle) (id : json)
    (s s1 : Agent) (st : Stats) :
  ensure_token_valid world s = (Ok tt, s1) ->
  (0 <= delay s)%Q ->
  match http world (ArtistRequest id (token s1)) (tick s1) with
  | None => st = incr_failed (stats s)
  | Some response =>
      if status_ok response
      then json_body response = None
           /\ st = incr_failed (incr_successful (incr_total (stats s)))
      else st = incr_failed (incr_total (stats s))
  end ->
  exists s',
    get_artist_details world id s = (Ok JNull, s')
    /\ stats s' = st
    /\ delay s' = Py.min (delay s * 2) 10
    /\ In (Sleep (Py.min (delay s * 2) 10)) (trace s').
Proof.
  intros Hensure Hpos.
  destruct (ensure_token_valid_frame world s s1 Hensure) as [Hs Hd].
  pose proof (backoff_sleeps (delay s1)) as E. rewrite Hd in E.
  specialize (E Hpos).
  unfold get_artist_details, bind at 1. rewrite Hensure.
  unfold adapt_delay, sleep.
  unfold bind, gets, try_except, requests_send, raise_for_status,
    response_json, lift, bump, modify, log, ret, raise.
  simpl.
  destruct (http world (ArtistRequest id (token s1)) (tick s1))
    as [[ok body] |]; simpl.
  - destruct ok; simpl.
    + intros [Hbody ->]. subst body. simpl.
      rewrite Hd, E, Hs. eexists. split; [reflexivity|]. simpl.
      repeat split. apply in_or_app. right. left. reflexivity.
    + intros ->. rewrite Hd, E, Hs. eexists. split; [reflexivity|]. simpl.
      repeat split. apply in_or_app. right. left. reflexivity.
  - intros ->. rewrite Hd, E, Hs. eexists. split; [reflexivity|]. simpl.
    repeat split. apply in_or_app. right. left. reflexivity.
Qed.

Lemma failed_details_backs_off_witness :
  exists s',
    get_artist_details
      (constant_world (answer token_body) (answer search_body) None)
      (JStr "x") (fresh_agent [] 1) = (Ok JNull, s')
    /\ stats s' = incr_failed (stats (fresh_agent [] 1))
    /\ delay s' = Py.min (delay (fresh_agent [] 1) * 2) 10
    /\ In (Sleep (Py.min (delay (fresh_agent [] 1) * 2) 10)) (trace s').
Proof.
  apply (failed_details_backs_off
           (constant_world (answer token_body) (answer search_body) None)
           (JStr "x") (fresh_agent [] 1)
           (snd (ensure_token_valid
                   (constant_world (answer token_body) (answer search_body) None)
                   (fresh_agent [] 1)))).
  - vm_compute. reflexivity.
  - vm_compute. discriminate.
  - reflexivity.
Defined.

(** ** Escalation reaches the ceiling *)

Lemma after_failures_from (s : Agent) (n : nat) :
  (delay s <= 10)%Q ->
  (delay (after_failures n s)
   == Qmin (delay s * inject_Z (2 ^ Z.of_nat n)) 10)%Q.
Proof.
  intro Hhi.
  induction n as [| n IH].
  - simpl. change (inject_Z (2 ^ 0)) with 1%Q.
    destruct (Q.min_spec (delay s * 1) 10) as [[H ->] | [H ->]]; lra.
  - rewrite after_failures_succ, adapt_delay_delay, py_min_Qmin.
    assert (Hp : (delay s * inject_Z (2 ^ Z.of_nat (S n))
                  == 2 * (delay s * inject_Z (2 ^ Z.of_nat n)))%Q).
    { rewrite pow2_succ. ring. }
    set (x := (delay s * inject_Z (2 ^ Z.of_nat n))%Q) in *.
    set (y := (delay s * inject_Z (2 ^ Z.of_nat (S n)))%Q) in *.
    set (d := delay (after_failures n s)) in *.
    destruct (Q.min_spec x 10) as [[H1 E1] | [H1 E1]];
      destruct (Q.min_spec (d * 2) 10) as [[H2 ->] | [H2 ->]];
      destruct (Q.min_spec y 10) as [[H3 ->] | [H3 ->]];
      rewrite E1 in IH; lra.
Qed.

Lemma pow2_at_least (n : nat) :
  (inject_Z (Z.of_nat n) + 1 <= inject_Z (2 ^ Z.of_nat n))%Q.
Proof.
  induction n as [| n IH].
  - vm_compute. discriminate.
  - rewrite pow2_succ.
    assert (Hs : (inject_Z (Z.of_nat (S n)) == inject_Z (Z.of_nat n) + 1)%Q).
    { rewrite Nat2Z.inj_succ. unfold Z.succ. rewrite inject_Z_plus. reflexivity. }
    rewrite Hs.
    assert (Hk0 : (0 <= inject_Z (Z.of_nat n))%Q).
    { replace 0%Q with (inject_Z 0) by reflexivity. rewrite <- Zle_Qle. lia. }
    lra.
Qed.

(** From a positive delay of at most 10, finitely many consecutive calls of
    [adapt_delay] bring the delay to exactly 10, and further failures leave
    it there. *)
Theorem adapt_delay_reaches_ceiling (s : Agent) :
  (0 < delay s <= 10)%Q ->
  exists n, forall m, (n <= m)%nat -> (delay (after_failures m s) == 10)%Q.
Proof.
  intros [Hpos Hhi].
  assert (Hn : exists n, (10 <= delay s * inject_Z (Z.of_nat n))%Q).
  { destruct (delay s) as [nd dd].
    assert (Hnd : (1 <= nd)%Z) by (unfold Qlt in Hpos; simpl in Hpos; lia).
    exists (Z.to_nat (10 * Zpos dd)).
    rewrite Z2Nat.id by lia.
    unfold Qle. cbn [Qnum Qden Qmult inject_Z].
    rewrite !Pos2Z.inj_mul.
    assert (Hx : (0 <= 10 * Z.pos dd)%Z) by lia.
    set (x := (10 * Z.pos dd)%Z) in *.
    replace (10 * (Z.pos dd * 1))%Z with x by (unfold x; ring).
    replace (nd * x * 1)%Z with (x * nd)%Z by ring.
    nia. }
  destruct Hn as [n Hn]. exists n. intros m Hm.
  rewrite (after_failures_from s m Hhi).
  pose proof (pow2_at_least m) as Hb.
  assert (Hk : (inject_Z (Z.of_nat n) <= inject_Z (Z.of_nat m))%Q).
  { rewrite <- Zle_Qle. lia. }
  set (d := delay s) in *.
  set (p := inject_Z (2 ^ Z.of_nat m)) in *.
  set (kn := inject_Z (Z.of_nat n)) in *.
  set (km := inject_Z (Z.of_nat m)) in *.
  assert (H1 : (d * kn <= d * p)%Q) by nra.
  destruct (Q.min_spec (d * p) 10) as [[H ->] | [H ->]]; [lra | reflexivity].
Qed.

Lemma adapt_delay_reaches_ceiling_witness :
  exists n, forall m, (n <= m)%nat ->
    (delay (after_failures m (fresh_agent [] 1)) == 10)%Q.
Proof.
  apply (adapt_delay_reaches_ceiling (fresh_agent [] 1)).
  split; vm_compute; [reflexivity | discriminate].
Defined.


Lemma names_processed_in_order_witness :
  names_processed
    (snd (run_loop healthy_world ["a"; "b"]%string (fresh_agent [] 1)))
  = names_processed (fresh_agent [] 1) ++ ["a"; "b"]%string.
Proof.
  destruct (names_processed_in_order healthy_world ["a"; "b"]%string
              (fresh_agent [] 1)) as [k [_ [_ H]]].
  apply (H [Collected; Collected]).
  vm_compute. reflexivity.
Defined.

(** ** Errors of the quality gate and of the record *)

(** [assess_data_quality] returns [False] on anything falsy, fails with
    [AttributeError] on a truthy value that is not a dict, and on a dict
    fails only with [TypeError], exactly when the name is truthy and the
    genres are a truthy value without a length (a number or [True]). *)
Theorem assess_data_quality_errors (d : json) :
  (Py.truthy d = false -> assess_data_quality d = Ok false)
  /\ (Py.truthy d = true -> (forall fields, d <> JObj fields) ->
      assess_data_quality d = Raise AttributeError)
  /\ (forall fields e,
        d = JObj fields ->
        (assess_data_quality d = Raise e
         <-> e = TypeError
             /\ exists name genres,
                  Py.lookup "name" fields = Some name
                  /\ Py.truthy name = true
                  /\ Py.lookup "genres" fields = Some genres
                  /\ Py.truthy genres = true
                  /\ Py.len genres = Raise TypeError)).
Proof.
  split; [| split].
  - intro H. unfold assess_data_quality. rewrite H. reflexivity.
  - intros H Hnot. unfold assess_data_quality. rewrite H. simpl.
    destruct d; try reflexivity. exfalso. apply (Hnot fields). reflexivity.
  - intros fields e ->. rewrite assess_data_quality_gate. unfold gate.
    destruct (Py.lookup "name" fields) as [name |].
    + destruct (Py.truthy name) eqn:Hn; simpl.
      * destruct (Py.lookup "genres" fields) as [genres |].
        -- destruct (Py.truthy genres) eqn:Hg; simpl.
           ++ destruct (Py.len genres) as [k | e'] eqn:Hl.
              ** split; [discriminate|].
                 intros [_ [n [g [Hn' [_ [Hg' [_ Hl']]]]]]].
                 injection Hg' as <-. congruence.
              ** assert (He : e' = TypeError)
                   by (destruct genres; simpl in Hl; congruence).
                 subst e'. split.
                 --- intro H; injection H as <-. split; [reflexivity|].
                     exists name, genres. repeat split; assumption.
                 --- intros [-> _]. reflexivity.
           ++ split; [discriminate|].
              intros [_ [n [g [_ [_ [Hg' [Ht _]]]]]]].
              injection Hg' as <-. congruence.
        -- split; [discriminate|].
           intros [_ [n [g [_ [_ [Hg' _]]]]]]. discriminate.
      * split; [discriminate|].
        intros [_ [n [g [Hn' [Ht _]]]]]. injection Hn' as <-. congruence.
    + split; [discriminate|].
      intros [_ [n [g [Hn' _]]]]. discriminate.
Qed.

Lemma assess_data_quality_errors_witness :
  assess_data_quality (JArr [JStr "x"]) = Raise AttributeError
  /\ assess_data_quality (JObj [("name", JStr "A"); ("genres", JNum 3)]%string)
     = Raise TypeError.
Proof.
  split.
  - apply (proj1 (proj2 (assess_data_quality_errors (JArr [JStr "x"])))).
    + reflexivity.
    + intros fields H. discriminate H.
  - apply (proj2 (proj2 (assess_data_quality_errors
             (JObj [("name", JStr "A"); ("genres", JNum 3)]%string)))
             [("name", JStr "A"); ("genres", JNum 3)]%string TypeError eq_refl).
    split; [reflexivity|].
    exists (JStr "A"), (JNum 3). repeat split.
Defined.

(** The quality check and the building of the record are outside every
    [try]: when the search has returned an artist with an id and the detail
    fetch a truthy record, an error of [assess_data_quality], or of a
    [.get] on an [external_urls] or [followers] that is not a dict, escapes
    the iteration and ends the loop; nothing is appended, [quality_passed]
    is not incremented and [respectful_delay] is not called. *)
Theorem record_errors_escape_iteration (world : Oracle) (name : string)
    (rest : list string) (s s1 s2 : Agent) (artist_basic id details : json)
    (e : exn) :
  search_artist world name (emit (Log (LogProcessing name)) s)
  = (Ok artist_basic, s1) ->
  Py.truthy artist_basic = true ->
  Py.get artist_basic "id" = Ok id ->
  get_artist_details world id s1 = (Ok details, s2) ->
  Py.truthy details = true ->
  (assess_data_quality details = Raise e
   \/ (assess_data_quality details = Ok true
       /\ collected_record id details = Raise e)) ->
  run_body world name s = (Raise e, s2)
  /\ run_loop world (name :: rest) s = (Raise e, s2).
Proof.
  intros Hs Hb Hid Hd Ht He.
  assert (Hbody : run_body world name s = (Raise e, s2)).
  { unfold run_body, bind, log, modify, lift, ret.
    rewrite Hs, Hb. simpl. rewrite Hid, Hd, Ht. simpl.
    destruct He as [Hq | [Hq Hr]]; rewrite Hq; [reflexivity|].
    rewrite Hr. reflexivity. }
  split; [exact Hbody|].
  simpl. unfold bind at 1. rewrite Hbody. reflexivity.
Qed.

Lemma record_errors_escape_iteration_witness :
  run_body null_followers_world "a" (fresh_agent ["a"; "b"]%string 1)
  = (Raise AttributeError,
     snd (get_artist_details null_followers_world
            (JStr "06HL4z0CvFAxyc27GXpf02")
            (snd (search_artist null_followers_world "a"
                    (emit (Log (LogProcessing "a"))
                       (fresh_agent ["a"; "b"]%string 1)))))).
Proof.
  refine (proj1 (record_errors_escape_iteration null_followers_world
                  "a"%string ["b"%string]
                  (fresh_agent ["a"; "b"]%string 1)
                  (snd (search_artist null_followers_world "a"
                          (emit (Log (LogProcessing "a"))
                             (fresh_agent ["a"; "b"]%string 1))))
                  (snd (get_artist_details null_followers_world
                          (JStr "06HL4z0CvFAxyc27GXpf02")
                          (snd (search_artist null_followers_world "a"
                                  (emit (Log (LogProcessing "a"))
                                     (fresh_agent ["a"; "b"]%string 1))))))
                  (JObj [("id", JStr "06HL4z0CvFAxyc27GXpf02")]%string)
                  (JStr "06HL4z0CvFAxyc27GXpf02")
                  (JObj [("name", JStr "A"); ("genres", JArr [JStr "pop"]);
                         ("followers", JNull)]%string)
                  AttributeError _ _ _ _ _ _)).
  - vm_compute. reflexivity.
  - reflexivity.
  - reflexivity.
  - vm_compute. reflexivity.
  - reflexivity.
  - right. split; reflexivity.
Defined.
